(** * Verification of the caching and aggregation core of minfiks-overgang-sjekker

    Shallow embedding of [src/src/db.ts], [src/src/utils.ts] and the handlers
    of [src/src/components/Tracker.tsx].  JavaScript numbers that hold
    integers are modelled as [Z]; JavaScript strings as [String.string];
    [Set<number>] and [Map<number, _>] as insertion-ordered lists; the plain
    objects [players] and [usage] as stdpp [gmap]s with string keys. *)

From Stdlib Require Import ZArith Ascii String List Lia Sorting.Sorted DecimalZ.
From stdpp Require Import base list gmap strings sorting.
Import ListNotations.
Open Scope Z_scope.

(* ------------------------------------------------------------------ *)
(** ** JavaScript number <-> string conversions *)

Module JsNum.

(** Decimal digits of a [Decimal.uint], most significant first. *)
Fixpoint uint_to_string (u : Decimal.uint) : string :=
  match u with
  | Decimal.Nil => EmptyString
  | Decimal.D0 r => String "0" (uint_to_string r)
  | Decimal.D1 r => String "1" (uint_to_string r)
  | Decimal.D2 r => String "2" (uint_to_string r)
  | Decimal.D3 r => String "3" (uint_to_string r)
  | Decimal.D4 r => String "4" (uint_to_string r)
  | Decimal.D5 r => String "5" (uint_to_string r)
  | Decimal.D6 r => String "6" (uint_to_string r)
  | Decimal.D7 r => String "7" (uint_to_string r)
  | Decimal.D8 r => String "8" (uint_to_string r)
  | Decimal.D9 r => String "9" (uint_to_string r)
  end.

(** [n.toString()] for an integer-valued number [n].  For every safe
    integer (|n| < 2^53, far below 1e21) ECMAScript's Number::toString is
    the plain decimal form, with a leading ["-"] for negatives. *)
Definition toString (n : Z) : string :=
  match Z.to_int n with
  | Decimal.Pos u => uint_to_string u
  | Decimal.Neg u => String "-" (uint_to_string u)
  end.

Definition digit_of (c : ascii) : option (Decimal.uint -> Decimal.uint) :=
  if ascii_dec c "0" then Some Decimal.D0 else
  if ascii_dec c "1" then Some Decimal.D1 else
  if ascii_dec c "2" then Some Decimal.D2 else
  if ascii_dec c "3" then Some Decimal.D3 else
  if ascii_dec c "4" then Some Decimal.D4 else
  if ascii_dec c "5" then Some Decimal.D5 else
  if ascii_dec c "6" then Some Decimal.D6 else
  if ascii_dec c "7" then Some Decimal.D7 else
  if ascii_dec c "8" then Some Decimal.D8 else
  if ascii_dec c "9" then Some Decimal.D9 else None.

(** The longest prefix of decimal digits. *)
Fixpoint read_digits (s : string) : Decimal.uint :=
  match s with
  | EmptyString => Decimal.Nil
  | String c r =>
      match digit_of c with
      | Some d => d (read_digits r)
      | None => Decimal.Nil
      end
  end.

(** JavaScript white space and line terminators whose code unit fits in a
    byte (TAB, LF, VT, FF, CR, SPACE, NBSP); the other Unicode white space
    code points are not representable in [string]. *)
Definition is_ws (c : ascii) : bool :=
  let n := nat_of_ascii c in
  (Nat.eqb n 9 || Nat.eqb n 10 || Nat.eqb n 11 || Nat.eqb n 12 ||
   Nat.eqb n 13 || Nat.eqb n 32 || Nat.eqb n 160)%bool.

Fixpoint skip_ws (s : string) : string :=
  match s with
  | String c r => if is_ws c then skip_ws r else s
  | EmptyString => EmptyString
  end.

Definition parse_unsigned (s : string) : option Z :=
  match read_digits s with
  | Decimal.Nil => None
  | u => Some (Z.of_uint u)
  end.

(** [parseInt(s)] with no radix: leading white space, an optional sign,
    then the longest run of decimal digits; [None] stands for [NaN].
    (The ["0x"] hexadecimal prefix is not modelled; [toString] above never
    produces it.) *)
Definition parseInt (s : string) : option Z :=
  match skip_ws s with
  | String "-" r => option_map Z.opp (parse_unsigned r)
  | String "+" r => parse_unsigned r
  | s' => parse_unsigned s'
  end.

End JsNum.

(* ------------------------------------------------------------------ *)
(** ** [utils.ts]: season codec *)

Module Season.

(** [seasonIdForYear = (year: number) => (year - 1917).toString()] *)
Definition seasonIdForYear (year : Z) : string := JsNum.toString (year - 1917).

(** [yearForSeasonId = (seasonId: string) => parseInt(seasonId) + 1917];
    [NaN + 1917] is [NaN], i.e. [None]. *)
Definition yearForSeasonId (seasonId : string) : option Z :=
  option_map (fun n => n + 1917) (JsNum.parseInt seasonId).

(** [years = Array.from({ length: 5 }, (_, i) => currentYear - i)], with
    [currentYear = new Date().getFullYear()] as a parameter. *)
Definition years (currentYear : Z) : list Z :=
  map (fun i => currentYear - Z.of_nat i) (seq 0 5%nat).

(** [initialSeasonId = seasonIdForYear(currentYear)] *)
Definition initialSeasonId (currentYear : Z) : string := seasonIdForYear currentYear.

(** The values of the season [<select>]: [years.map(year => seasonIdForYear(year))]. *)
Definition seasonOptions (currentYear : Z) : list string :=
  map seasonIdForYear (years currentYear).

End Season.

(* ------------------------------------------------------------------ *)
(** ** JavaScript numbers as IEEE-754 doubles

    [JsNum] and [Season] above treat a number as an exact integer, which is
    what the program computes as long as every value is a safe integer.
    This module models the double arithmetic itself for integer-valued
    numbers, so that the season codec can be followed for any year the
    program can hold: the exact result of an integer operation is rounded
    to the nearest double, and [Number::toString] switches to exponent form
    for magnitudes of at least 1e21.  (Overflow to [Infinity], above 2^1024,
    is outside this model.) *)

Module JsDouble.

(** Rounding of an exact integer to the nearest double (53-bit significand),
    ties to even: the result of [a - b] or [a + b] on integer-valued
    numbers, and the value [parseInt] returns for its digit string. *)
Definition round (z : Z) : Z :=
  let a := Z.abs z in
  if Z.ltb a (2 ^ 53) then z else
  let e := Z.log2 a - 52 in
  let q := Z.shiftr a e in
  let r := a - Z.shiftl q e in
  let h := 2 ^ (e - 1) in
  let q' := if Z.ltb r h then q
            else if Z.ltb h r then q + 1
            else if Z.even q then q else q + 1 in
  Z.sgn z * Z.shiftl q' e.

(** The significand [s] of [a] (> 0) at decimal exponent [e], if one of the
    two candidates [floor (a / 10^e)] and the next integer denotes [a]
    (i.e. [s * 10^e] rounds back to [a]); if both do, the one whose value
    is closer to [a], and on a tie the even one. *)
Definition significand_at (a e : Z) : option Z :=
  let p := 10 ^ e in
  let s := a / p in
  let r := a mod p in
  let lo := Z.eqb (round (s * p)) a in
  let hi := Z.eqb (round ((s + 1) * p)) a in
  if (lo && hi)%bool then
    Some (if Z.ltb (2 * r) p then s
          else if Z.ltb p (2 * r) then s + 1
          else if Z.even s then s else s + 1)
  else if lo then Some s
  else if hi then Some (s + 1)
  else None.

(** The shortest significand: the first number of digits [k] in [ks] for
    which a [k]-digit significand denotes [a]; [nd] is the number of
    decimal digits of [a].  Returns the significand and its exponent. *)
Fixpoint shortest_from (a nd : Z) (ks : list Z) : option (Z * Z) :=
  match ks with
  | [] => None
  | k :: ks' =>
      match significand_at a (nd - k) with
      | Some s => Some (s, nd - k)
      | None => shortest_from a nd ks'
      end
  end.

(** Digit strings: drop trailing zeros (left over when rounding up carries
    into a new digit, e.g. [99.. -> 100..]). *)
Fixpoint strip_zeros_rev (l : list ascii) : list ascii :=
  match l with
  | "0"%char :: r => strip_zeros_rev r
  | _ => l
  end.

Definition strip_trailing_zeros (s : string) : string :=
  string_of_list_ascii (rev (strip_zeros_rev (rev (list_ascii_of_string s)))).

(** Exponent form of [a >= 1e21] (steps 7-10 of Number::toString with
    [n > 21]): digits [d], then ["." ++ rest] if there is more than one,
    then ["e+"] and [n - 1].  Every double has a significand of at most 17
    digits, so the search below always succeeds on a double. *)
Definition exponent_form (a : Z) : string :=
  let nd := Z.of_nat (String.length (JsNum.toString a)) in
  match shortest_from a nd (map Z.of_nat (seq 1 17)) with
  | Some (s, e) =>
      let ds := strip_trailing_zeros (JsNum.toString s) in
      let n := e + Z.of_nat (String.length (JsNum.toString s)) in
      let mant := match ds with
                  | String d EmptyString => String d EmptyString
                  | String d rest => String d (String "." rest)
                  | EmptyString => EmptyString
                  end in
      mant ++ "e+" ++ JsNum.toString (n - 1)
  | None => JsNum.toString a
  end.

(** [x.toString()] for an integer-valued double [x]: the plain decimal form
    below 1e21 in magnitude, the exponent form from 1e21 on; negative
    numbers get a leading ["-"]. *)
Definition toString (x : Z) : string :=
  if Z.ltb (Z.abs x) (10 ^ 21) then JsNum.toString x
  else if Z.ltb x 0 then String "-" (exponent_form (- x))
  else exponent_form x.

(** [parseInt(s)]: the integer read by [JsNum.parseInt], as a double. *)
Definition parseInt (s : string) : option Z :=
  option_map round (JsNum.parseInt s).

End JsDouble.

(** The season codec of [utils.ts] over doubles. *)
Module SeasonJs.

(** [seasonIdForYear = (year: number) => (year - 1917).toString()] *)
Definition seasonIdForYear (year : Z) : string :=
  JsDouble.toString (JsDouble.round (year - 1917)).

(** [yearForSeasonId = (seasonId: string) => parseInt(seasonId) + 1917] *)
Definition yearForSeasonId (seasonId : string) : option Z :=
  option_map (fun n => JsDouble.round (n + 1917)) (JsDouble.parseInt seasonId).

End SeasonJs.

(* ------------------------------------------------------------------ *)
(** ** [db.ts]: cache items and freshness *)

Module Db.

(** [CacheItem<T>]: keys are [string | number]. *)
Inductive Key := KStr (s : string) | KNum (n : Z).

Record CacheItem (T : Type) := mkItem { key : Key; data : T; timestamp : Z }.
Arguments mkItem {T}.
Arguments key {T}.
Arguments data {T}.
Arguments timestamp {T}.

(** [const CACHE_DURATION_MS = 60 * 60 * 1000] *)
Definition CACHE_DURATION_MS : Z := 60 * 60 * 1000.

(** [isCacheValid(item)] with [Date.now()] passed as [now]:
    [item ? (Date.now() - item.timestamp) < CACHE_DURATION_MS : false].
    A [CacheItem] object is always truthy, [null] is falsy. *)
Definition isCacheValid {T} (now : Z) (item : option (CacheItem T)) : bool :=
  match item with
  | Some it => now - timestamp it <? CACHE_DURATION_MS
  | None => false
  end.

End Db.

(* ------------------------------------------------------------------ *)
(** ** [Tracker.tsx] [searchForClubs]: parsing the club search response *)

Module Clubs.

(** [interface Club { id: number; name: string }] *)
Record Club := mkClub { id : Z; name : string }.

(** [type RawClubData = { value: number; label: string }] *)
Record RawClubData := mkRaw { value : Z; label : string }.

Fixpoint skip_ws_l (l : list ascii) : list ascii :=
  match l with
  | c :: r => if JsNum.is_ws c then skip_ws_l r else l
  | [] => []
  end.

(** [String.prototype.trim]: white space removed at both ends. *)
Definition trim (s : string) : string :=
  string_of_list_ascii
    (rev (skip_ws_l (rev (skip_ws_l (list_ascii_of_string s))))).

(** [club.value && club.label && club.label.trim() !== '']: a number is
    falsy when it is [0], a string when it is empty. *)
Definition keep (club : RawClubData) : bool :=
  negb (value club =? 0) && negb (String.eqb (label club) "") &&
  negb (String.eqb (trim (label club)) "").

(** [Map.prototype.set] on an insertion-ordered map with number keys: an
    existing key keeps its position and gets the new value; a new key is
    appended. *)
Fixpoint map_set {V} (m : list (Z * V)) (k : Z) (v : V) : list (Z * V) :=
  match m with
  | [] => [(k, v)]
  | (k', v') :: r => if k' =? k then (k, v) :: r else (k', v') :: map_set r k v
  end.

(** [rawData.forEach(club => { if (keep club) uniqueClubs.set(club.value, club) })] *)
Definition collect_step (m : list (Z * RawClubData)) (club : RawClubData)
  : list (Z * RawClubData) :=
  if keep club then map_set m (value club) club else m.

(** [Array.from(uniqueClubs.values()).map(club => ({ id: club.value, name: club.label }))] *)
Definition parseClubs (rawData : list RawClubData) : list Club :=
  map (fun '(_, club) => mkClub (value club) (label club))
    (fold_left collect_step rawData []).

(** The last raw entry with id [k] that passes the filter. *)
Definition last_kept (rawData : list RawClubData) (k : Z) : option RawClubData :=
  fold_left (fun acc club => if keep club && (value club =? k) then Some club else acc)
    rawData None.

(** The example input of the specification. *)
Definition spec_example : list RawClubData :=
  [mkRaw 1 "A"; mkRaw 1 "B"; mkRaw 0 "C"; mkRaw 2 ""].

End Clubs.

(* ------------------------------------------------------------------ *)
(** ** [types.ts]: the entities *)

Module Types.

(** [interface Player { personId; firstName; lastName }] *)
Record Player := mkPlayer { personId : Z; firstName : string; lastName : string }.

(** [homeTeam] / [awayTeam] of a [Match]: [{ id; name; players }]. *)
Record Side := mkSide { side_id : Z; side_name : string; players : list Player }.

(** [interface Match { id; week; homeTeam; awayTeam }] *)
Record Match := mkMatch { match_id : Z; week : Z; homeTeam : Side; awayTeam : Side }.

(** The [{id: number}] stubs of a match list. *)
Record MatchStub := mkStub { stub_id : Z }.

Record Competition := mkCompetition { comp_id : Z; comp_name : string }.

(** [interface Team]; [ageCategory: {name}] and [genre: {name}] as their names. *)
Record Team := mkTeam {
  team_id : Z; team_name : string; clubId : Z; clubName : string;
  competitions : list Competition; ageCategory : string; genre : string }.

(** [interface PlayerUsageData]: [players] and [usage] are plain objects
    with string keys. *)
Record PlayerUsageData := mkUsage {
  pu_players : gmap string string;
  pu_weeks : list string;
  pu_usage : gmap string (gmap string string) }.

End Types.

(* ------------------------------------------------------------------ *)
(** ** Effects: IndexedDB stores, the network, React state *)

Module Sys.
Import Db Clubs Types.

(** One IndexedDB object store with [keyPath: 'key']: a list of items,
    at most one per key. *)
Definition key_eqb (a b : Key) : bool :=
  match a, b with
  | KStr x, KStr y => String.eqb x y
  | KNum x, KNum y => Z.eqb x y
  | _, _ => false
  end.

(** [store.get(key)]; [request.result || null]. *)
Definition store_get {T} (st : list (CacheItem T)) (k : Key) : option (CacheItem T) :=
  find (fun it => key_eqb (key it) k) st.

(** [store.put(item)]: replaces the item with the same key. *)
Definition store_put {T} (st : list (CacheItem T)) (it : CacheItem T) : list (CacheItem T) :=
  it :: filter (fun it' => negb (key_eqb (key it') (key it))) st.

(** The database [FootballTrackerDB] with its four stores. *)
Record Database := mkDatabase {
  club_search : list (CacheItem (list Club));
  teams : list (CacheItem (list Team));
  match_lists : list (CacheItem (list MatchStub));
  match_details : list (CacheItem Match) }.

(** What a [fetch] produces: a rejected promise (transport failure) or a
    [Response] with [ok], [status] and the outcome of [response.json()]
    ([inl] is the rejection message of a body that does not parse). *)
Inductive FetchOutcome (A : Type) :=
| TransportError (msg : string)
| Response (ok : bool) (status : Z) (body : string + A).
Arguments TransportError {A}.
Arguments Response {A}.

(** Observable operations, in the order they are issued. *)
Inductive Op :=
| OpActivity
| OpGet (store : string) (k : Key)
| OpPut (store : string) (k : Key)
| OpFetch (url : string).

(** The environment: the database, the clock, the failure modes of
    IndexedDB, the remote endpoints, and the log of operations. *)
Record World := mkWorld {
  db : Database;
  now : Z;
  db_read_error : option string;
  db_write_error : option string;
  net_clubs : string -> string -> FetchOutcome (list RawClubData);
  net_teams : Z -> FetchOutcome (list Team);
  net_matches : Z -> Z -> FetchOutcome (list MatchStub);
  net_match : Z -> FetchOutcome Match;
  trace : list Op }.

Definition set_db (d : Database) (w : World) : World :=
  mkWorld d (now w) (db_read_error w) (db_write_error w)
    (net_clubs w) (net_teams w) (net_matches w) (net_match w) (trace w).

Definition log (o : Op) (w : World) : World :=
  mkWorld (db w) (now w) (db_read_error w) (db_write_error w)
    (net_clubs w) (net_teams w) (net_matches w) (net_match w) (trace w ++ [o]).

(** The [Tracker] component's state.  [selectedClub] carries the object
    identity React compares in effect dependencies. *)
Record UI := mkUI {
  loading_clubs : bool; loading_teams : bool; loading_usage : bool;
  error : option string;
  clubQuery : string; seasonId : string;
  clubs : list Club;
  selectedClub : option (nat * Club);
  allTeams : list Team;
  selectedTeamIds : list Z;
  competitionId : option Z;
  playerUsage : option PlayerUsageData }.

Definition State : Type := UI * World.

Inductive Result (A : Type) := Ok (a : A) | Err (msg : string).
Arguments Ok {A}.
Arguments Err {A}.

(** Async code over the component state and the environment; a rejected
    promise is [Err]. *)
Definition M (A : Type) : Type := State -> Result A * State.

Global Instance M_ret : MRet M := fun A a s => (Ok a, s).
Global Instance M_bind : MBind M := fun A B f m s =>
  match m s with
  | (Ok a, s') => f a s'
  | (Err e, s') => (Err e, s')
  end.

Definition throw {A} (msg : string) : M A := fun s => (Err msg, s).
Definition lift {A} (r : Result A) : M A := fun s => (r, s).

(** [try { ... } catch]: the outcome as a value. *)
Definition attempt {A} (m : M A) : M (Result A) :=
  fun s => let '(r, s') := m s in (Ok r, s').

Definition get_ui : M UI := fun s => (Ok (fst s), s).
Definition get_world : M World := fun s => (Ok (snd s), s).
Definition modify_ui (f : UI -> UI) : M unit := fun s => (Ok tt, (f (fst s), snd s)).
Definition modify_world (f : World -> World) : M unit := fun s => (Ok tt, (fst s, f (snd s))).

(** React setters. *)
Definition setError (e : option string) : M unit := modify_ui (fun u =>
  mkUI (loading_clubs u) (loading_teams u) (loading_usage u) e (clubQuery u) (seasonId u)
    (clubs u) (selectedClub u) (allTeams u) (selectedTeamIds u) (competitionId u) (playerUsage u)).
Definition setLoadingClubs (b : bool) : M unit := modify_ui (fun u =>
  mkUI b (loading_teams u) (loading_usage u) (error u) (clubQuery u) (seasonId u)
    (clubs u) (selectedClub u) (allTeams u) (selectedTeamIds u) (competitionId u) (playerUsage u)).
Definition setLoadingTeams (b : bool) : M unit := modify_ui (fun u =>
  mkUI (loading_clubs u) b (loading_usage u) (error u) (clubQuery u) (seasonId u)
    (clubs u) (selectedClub u) (allTeams u) (selectedTeamIds u) (competitionId u) (playerUsage u)).
Definition setLoadingUsage (b : bool) : M unit := modify_ui (fun u =>
  mkUI (loading_clubs u) (loading_teams u) b (error u) (clubQuery u) (seasonId u)
    (clubs u) (selectedClub u) (allTeams u) (selectedTeamIds u) (competitionId u) (playerUsage u)).
Definition setClubQuery (q : string) : M unit := modify_ui (fun u =>
  mkUI (loading_clubs u) (loading_teams u) (loading_usage u) (error u) q (seasonId u)
    (clubs u) (selectedClub u) (allTeams u) (selectedTeamIds u) (competitionId u) (playerUsage u)).
Definition setClubs (cs : list Club) : M unit := modify_ui (fun u =>
  mkUI (loading_clubs u) (loading_teams u) (loading_usage u) (error u) (clubQuery u) (seasonId u)
    cs (selectedClub u) (allTeams u) (selectedTeamIds u) (competitionId u) (playerUsage u)).
Definition setSelectedClub (c : option (nat * Club)) : M unit := modify_ui (fun u =>
  mkUI (loading_clubs u) (loading_teams u) (loading_usage u) (error u) (clubQuery u) (seasonId u)
    (clubs u) c (allTeams u) (selectedTeamIds u) (competitionId u) (playerUsage u)).
Definition setAllTeams (ts : list Team) : M unit := modify_ui (fun u =>
  mkUI (loading_clubs u) (loading_teams u) (loading_usage u) (error u) (clubQuery u) (seasonId u)
    (clubs u) (selectedClub u) ts (selectedTeamIds u) (competitionId u) (playerUsage u)).
Definition setSelectedTeamIds (ids : list Z) : M unit := modify_ui (fun u =>
  mkUI (loading_clubs u) (loading_teams u) (loading_usage u) (error u) (clubQuery u) (seasonId u)
    (clubs u) (selectedClub u) (allTeams u) ids (competitionId u) (playerUsage u)).
Definition setCompetitionId (c : option Z) : M unit := modify_ui (fun u =>
  mkUI (loading_clubs u) (loading_teams u) (loading_usage u) (error u) (clubQuery u) (seasonId u)
    (clubs u) (selectedClub u) (allTeams u) (selectedTeamIds u) c (playerUsage u)).
Definition setPlayerUsage (p : option PlayerUsageData) : M unit := modify_ui (fun u =>
  mkUI (loading_clubs u) (loading_teams u) (loading_usage u) (error u) (clubQuery u) (seasonId u)
    (clubs u) (selectedClub u) (allTeams u) (selectedTeamIds u) (competitionId u) p).

(** [onActivity()]: re-arms the session timer in [App]. *)
Definition onActivity : M unit := modify_world (log OpActivity).

(** Time passing between two user actions: only the clock moves. *)
Definition advance (d : Z) (w : World) : World :=
  mkWorld (db w) (now w + d) (db_read_error w) (db_write_error w)
    (net_clubs w) (net_teams w) (net_matches w) (net_match w) (trace w).

End Sys.

(* ------------------------------------------------------------------ *)
(** ** [db.ts] and [api.ts] as operations of the effect model *)

Module Io.
Import Db Clubs Types Sys.

(** An object store of [FootballTrackerDB]: its name and where it sits in
    the database. *)
Record Store (T : Type) := mkStore {
  store_name : string;
  store_of : Database -> list (CacheItem T);
  with_store : list (CacheItem T) -> Database -> Database }.
Arguments mkStore {T}.
Arguments store_name {T}.
Arguments store_of {T}.
Arguments with_store {T}.

Definition clubSearchStore : Store (list Club) :=
  mkStore "club-search" club_search
    (fun s d => mkDatabase s (teams d) (match_lists d) (match_details d)).
Definition teamsStore : Store (list Team) :=
  mkStore "teams" teams
    (fun s d => mkDatabase (club_search d) s (match_lists d) (match_details d)).
Definition matchListsStore : Store (list MatchStub) :=
  mkStore "match-lists" match_lists
    (fun s d => mkDatabase (club_search d) (teams d) s (match_details d)).
Definition matchDetailsStore : Store Match :=
  mkStore "match-details" match_details
    (fun s d => mkDatabase (club_search d) (teams d) (match_lists d) s).

(** [getFromDB(storeName, key)]: rejects when IndexedDB cannot be read,
    else the stored item or [null]. *)
Definition getFromDB {T} (st : Store T) (k : Key) : M (option (CacheItem T)) :=
  fun s =>
    let '(u, w) := s in
    let w' := log (OpGet (store_name st) k) w in
    match db_read_error w with
    | Some e => (Err e, (u, w'))
    | None => (Ok (store_get (store_of st (db w)) k), (u, w'))
    end.

(** [setToDB(storeName, item)]: [store.put(item)], or a rejection (quota
    exceeded, store locked) that leaves the store as it was. *)
Definition setToDB {T} (st : Store T) (it : CacheItem T) : M unit :=
  fun s =>
    let '(u, w) := s in
    let w' := log (OpPut (store_name st) (key it)) w in
    match db_write_error w with
    | Some e => (Err e, (u, w'))
    | None =>
        (Ok tt, (u, set_db (with_store st (store_put (store_of st (db w)) it) (db w)) w'))
    end.

(** [Date.now()] *)
Definition dateNow : M Z := fun s => (Ok (now (snd s)), s).

(** [if (isCacheValid(cached)) return cached.data]: the data of a fresh
    item. *)
Definition fresh_data {T} (t : Z) (cached : option (CacheItem T)) : option T :=
  match cached with
  | Some it => if isCacheValid t cached then Some (data it) else None
  | None => None
  end.

(** [fetch(url, ...)]: a transport failure rejects; otherwise the response's
    [ok], [status] and body. *)
Definition fetch {A} (url : string) (endpoint : World -> FetchOutcome A)
  : M (bool * Z * (string + A)) :=
  fun s =>
    let '(u, w) := s in
    let w' := log (OpFetch url) w in
    match endpoint w with
    | TransportError e => (Err e, (u, w'))
    | Response ok status body => (Ok (ok, status, body), (u, w'))
    end.

(** [apiFetch(url, token)]: [fetch] with the bearer and content-type
    headers added; headers have no effect on the modelled outcome. *)
Definition apiFetch {A} (url : string) (token : string) (endpoint : World -> FetchOutcome A)
  : M (bool * Z * (string + A)) :=
  fetch url endpoint.

(** A fetch that does not deliver a parsed body: a transport failure, a
    response that is not [ok], or a body [response.json()] rejects. *)
Definition fetch_failed {A} (o : FetchOutcome A) : bool :=
  match o with
  | Response true _ (inr _) => false
  | _ => true
  end.

(** [await res.json()] *)
Definition json {A} (body : string + A) : M A :=
  match body with
  | inl e => throw e
  | inr a => mret a
  end.

End Io.

(* ------------------------------------------------------------------ *)
(** ** [Tracker.tsx]: the handlers *)

Module Tracker.
Import Db Clubs Types Sys Io.
Local Open Scope string_scope.

(** [searchForClubs] (Stage A), with [clubQuery] and [seasonId] read from
    the closure at call time. *)
Definition searchForClubs : M unit :=
  ui ← get_ui;
  let q := clubQuery ui in
  let sid := seasonId ui in
  if String.eqb q "" then mret tt else
  onActivity;;
  setLoadingClubs true;;
  setError None;;
  r ← attempt (
    let cacheKey := q ++ "-" ++ sid in
    cached ← getFromDB clubSearchStore (KStr cacheKey);
    t ← dateNow;
    match fresh_data t cached with
    | Some d => setClubs d
    | None =>
        '(ok, status, body) ← fetch "/TournamentSearchPage/SearchClubs"
                                 (fun w => net_clubs w q sid);
        if negb ok then throw ("Failed to fetch clubs. Status: " ++ JsNum.toString status)
        else
        rawData ← json body;
        let data := parseClubs rawData in
        setClubs data;;
        t' ← dateNow;
        setToDB clubSearchStore (mkItem (KStr cacheKey) data t')
    end);
  (match r with
   | Err e => setError (Some e);; setClubs []
   | Ok _ => mret tt
   end);;
  setLoadingClubs false.

(** [fetchTeams] inside the effect keyed on [selectedClub] (Stage B). *)
Definition fetchTeams (token : string) (club : Club) : M unit :=
  onActivity;;
  setLoadingTeams true;;
  setError None;;
  r ← attempt (
    cached ← getFromDB teamsStore (KNum (id club));
    t ← dateNow;
    match fresh_data t cached with
    | Some d => setAllTeams d
    | None =>
        '(ok, _, body) ← apiFetch ("/api/Teams?clubId=" ++ JsNum.toString (id club)) token
                            (fun w => net_teams w (id club));
        if negb ok then throw "Failed to fetch teams." else
        data ← json body;
        setAllTeams data;;
        t' ← dateNow;
        setToDB teamsStore (mkItem (KNum (id club)) data t')
    end);
  (match r with
   | Err e => setError (Some e)
   | Ok _ => mret tt
   end);;
  setLoadingTeams false.

(** [handleSelectClub(club)] *)
Definition handleSelectClub (club : nat * Club) : M unit :=
  setSelectedClub (Some club);;
  setClubs [];;
  setClubQuery "";;
  setPlayerUsage None;;
  setSelectedTeamIds [].

(** React's dependency check on [selectedClub]: [Object.is]. *)
Definition same_club_ref (a b : option (nat * Club)) : bool :=
  match a, b with
  | Some (r, _), Some (r', _) => Nat.eqb r r'
  | None, None => true
  | _, _ => false
  end.

(** A click on a club: the handler, then the effects of the next commit in
    declaration order: the debounce effect on [clubQuery]
    ([if (clubQuery.length < 3) setClubs([])]), the [fetchTeams] effect on
    [selectedClub], and [useEffect(() => setCompetitionId(null), [selectedClub])].
    [fetchTeams] is run to completion before the competition reset; the two
    touch different fields. *)
Definition selectClub (token : string) (club : nat * Club) : M unit :=
  before ← get_ui;
  handleSelectClub club;;
  after ← get_ui;
  (if String.eqb (clubQuery before) (clubQuery after) then mret tt
   else if Nat.ltb (String.length (clubQuery after)) 3 then setClubs [] else mret tt);;
  (if same_club_ref (selectedClub before) (selectedClub after) then mret tt
   else fetchTeams token (snd club);; setCompetitionId None).

(** The cache-or-fetch body shared by the Stage C and Stage D tasks. *)
Definition cacheOrFetch {T} (st : Store T) (k : Key) (url token : string)
  (endpoint : World -> FetchOutcome T) (failMsg : string) : M T :=
  cached ← getFromDB st k;
  t ← dateNow;
  match fresh_data t cached with
  | Some d => mret d
  | None =>
      '(ok, _, body) ← apiFetch url token endpoint;
      if negb ok then throw failMsg else
      data ← json body;
      t' ← dateNow;
      setToDB st (mkItem k data t');;
      mret data
  end.

(** [teamIds.map(async (id) => ...)] in Stage C. *)
Definition matchListTask (token : string) (competitionId : Z) (id : Z) : M (list MatchStub) :=
  let cacheKey := JsNum.toString id ++ "-" ++ JsNum.toString competitionId in
  cacheOrFetch matchListsStore (KStr cacheKey)
    ("/api/Matches?teamId=" ++ JsNum.toString id ++ "&competitionId=" ++
       JsNum.toString competitionId) token
    (fun w => net_matches w id competitionId)
    ("Failed fetching matches for team " ++ JsNum.toString id).

(** [Array.from(allMatchIds).map(async (id) => ...)] in Stage D. *)
Definition matchDetailTask (token : string) (id : Z) : M Match :=
  cacheOrFetch matchDetailsStore (KNum id) ("/api/Matches/" ++ JsNum.toString id) token
    (fun w => net_match w id)
    ("Failed fetching details for match " ++ JsNum.toString id).

(** The promises of a [Promise.all]: every task runs to completion, a
    rejection does not stop its siblings.  Tasks are run one after the
    other in array order; they touch pairwise different cache keys. *)
Fixpoint run_all {A} (ts : list (M A)) : M (list (Result A)) :=
  match ts with
  | [] => mret []
  | t :: r => x ← attempt t; xs ← run_all r; mret (x :: xs)
  end.

(** The settled [Promise.all]: all values, or a rejection (the first
    rejection in array order stands for the first one in time). *)
Fixpoint all_results {A} (rs : list (Result A)) : Result (list A) :=
  match rs with
  | [] => Ok []
  | Err e :: _ => Err e
  | Ok a :: r =>
      match all_results r with
      | Ok l => Ok (a :: l)
      | Err e => Err e
      end
  end.

Definition promise_all {A} (ts : list (M A)) : M (list A) :=
  rs ← run_all ts; lift (all_results rs).

(** [Set<number>]: [has], [add] keeping insertion order, [new Set(list)]. *)
Definition has (s : list Z) (x : Z) : bool := existsb (Z.eqb x) s.
Definition set_add (s : list Z) (x : Z) : list Z := if has s x then s else s ++ [x].
Definition set_of (l : list Z) : list Z := fold_left set_add l [].

(** [`Uke ${w}`] *)
Definition week_label (w : Z) : string := "Uke " ++ JsNum.toString w.

(** [!players[playerId]]: absent or the empty string. *)
Definition falsy (v : option string) : bool :=
  match v with
  | None => true
  | Some s => String.eqb s ""
  end.

(** The body of [team.players.forEach(player => ...)] on the pair
    [(players, usage)].  [usage[playerId]] exists whenever
    [players[playerId]] does: both get the key in the same branch. *)
Definition register_player (team : Side) (wk : Z)
  (acc : gmap string string * gmap string (gmap string string)) (player : Player)
  : gmap string string * gmap string (gmap string string) :=
  let playerId := JsNum.toString (personId player) in
  let '(pl, us) := acc in
  let '(pl, us) :=
    if falsy (pl !! playerId)
    then (<[playerId := firstName player ++ " " ++ lastName player]> pl,
          <[playerId := ∅]> us)
    else (pl, us) in
  (pl, <[playerId := <[week_label wk := side_name team]> (default ∅ (us !! playerId))]> us).

(** The fold state: [players], [usage] and [weekSet]. *)
Record FoldAcc := mkAcc {
  acc_players : gmap string string;
  acc_usage : gmap string (gmap string string);
  acc_weeks : list Z }.

(** The body of [allMatchDetails.forEach(match => ...)]. *)
Definition fold_match (selectedTeamIds : list Z) (acc : FoldAcc) (m : Match) : FoldAcc :=
  let team := if has selectedTeamIds (side_id (homeTeam m)) then homeTeam m else awayTeam m in
  if negb (has selectedTeamIds (side_id team)) then acc else
  let weekSet := set_add (acc_weeks acc) (week m) in
  let '(pl, us) := fold_left (register_player team (week m)) (players team)
                     (acc_players acc, acc_usage acc) in
  mkAcc pl us weekSet.

(** The fold step and [Array.from(weekSet).sort((a, b) => a - b).map(w => `Uke ${w}`)]. *)
Definition build_usage (selectedTeamIds : list Z) (allMatchDetails : list Match)
  : PlayerUsageData :=
  let acc := fold_left (fold_match selectedTeamIds) allMatchDetails (mkAcc ∅ ∅ []) in
  mkUsage (acc_players acc) (map week_label (merge_sort Z.le (acc_weeks acc))) (acc_usage acc).

Definition empty_usage : PlayerUsageData := mkUsage ∅ [] ∅.

(** The body of the [try] block of [handleFetchPlayerUsage]. *)
Definition analysis_body (token : string) (teamIds : list Z) (competitionId : Z) : M unit :=
  matchLists ← promise_all (map (matchListTask token competitionId) teamIds);
  let allMatchIds := set_of (map stub_id (concat matchLists)) in
  if Nat.eqb (length allMatchIds) 0 then setPlayerUsage (Some empty_usage) else
  allMatchDetails ← promise_all (map (matchDetailTask token) allMatchIds);
  setPlayerUsage (Some (build_usage teamIds allMatchDetails)).

Definition validation_message : string :=
  "Please select at least one team and a competition.".

(** [selectedTeamIds.size === 0 || !competitionId] fails; otherwise the
    selection and the (non-zero) competition id. *)
Definition validate (ui : UI) : option (list Z * Z) :=
  if Nat.eqb (length (selectedTeamIds ui)) 0 then None else
  match competitionId ui with
  | Some c => if Z.eqb c 0 then None else Some (selectedTeamIds ui, c)
  | None => None
  end.

(** What runs before the [try] block. *)
Definition usage_start : M unit :=
  onActivity;;
  setLoadingUsage true;;
  setError None;;
  setPlayerUsage None.

(** [handleFetchPlayerUsage] *)
Definition handleFetchPlayerUsage (token : string) : M unit :=
  ui ← get_ui;
  match validate ui with
  | None => setError (Some validation_message)
  | Some (teamIds, competitionId) =>
      usage_start;;
      r ← attempt (analysis_body token teamIds competitionId);
      (match r with
       | Err e => setError (Some e)
       | Ok _ => mret tt
       end);;
      setLoadingUsage false
  end.

End Tracker.

(* ------------------------------------------------------------------ *)
(** ** [Tracker.tsx]: team selection, the derived option lists, the table *)

Module TrackerView.
Import Db Clubs Types Sys Tracker.
Local Open Scope string_scope.

(** [newSet.delete(teamId)]: the other elements keep their order. *)
Definition set_delete (s : list Z) (x : Z) : list Z :=
  List.filter (fun y => negb (Z.eqb y x)) s.

(** The updater [handleTeamSelection] passes to [setSelectedTeamIds]:
    [new Set(prev)], then [delete] when present, [add] otherwise. *)
Definition toggle (prev : list Z) (teamId : Z) : list Z :=
  if has prev teamId then set_delete prev teamId else set_add prev teamId.

(** [handleTeamSelection(teamId)] *)
Definition handleTeamSelection (teamId : Z) : M unit :=
  ui ← get_ui;
  setSelectedTeamIds (toggle (selectedTeamIds ui) teamId).

(** [Set<string>.add], keeping insertion order. *)
Definition str_add (s : list string) (x : string) : list string :=
  if existsb (String.eqb x) s then s else s ++ [x].

(** [Array.prototype.sort()] with no comparator orders strings by their
    code units; a [string] here is the sequence of its code units. *)
Definition str_le (a b : string) : Prop := String.leb a b = true.
Global Instance str_le_dec : RelDecision str_le := fun a b => bool_dec (String.leb a b) true.
Definition str_sort (l : list string) : list string := merge_sort str_le l.

(** The three collections the [useMemo] fills in [allTeams.forEach]. *)
Record TeamOptions := mkOptions {
  genreSet : list string;
  ageSet : list string;
  compMap : list (Z * string) }.

(** [if (!compMap.has(c.id)) compMap.set(c.id, c.name)] *)
Definition comp_first (m : list (Z * string)) (c : Competition) : list (Z * string) :=
  if existsb (Z.eqb (comp_id c)) (map fst m) then m else map_set m (comp_id c) (comp_name c).

(** The body of [allTeams.forEach(team => ...)]. *)
Definition options_step (o : TeamOptions) (team : Team) : TeamOptions :=
  mkOptions (str_add (genreSet o) (genre team))
            (str_add (ageSet o) (ageCategory team))
            (fold_left comp_first (competitions team) (compMap o)).

Definition team_options (allTeams : list Team) : TeamOptions :=
  fold_left options_step allTeams (mkOptions [] [] []).

(** [(!genreFilter || team.genre.name === genreFilter) &&
     (!ageFilter || team.ageCategory.name === ageFilter)] *)
Definition team_visible (genreFilter ageFilter : string) (team : Team) : bool :=
  (String.eqb genreFilter "" || String.eqb (genre team) genreFilter) &&
  (String.eqb ageFilter "" || String.eqb (ageCategory team) ageFilter).

(** [filteredTeams] *)
Definition filteredTeams (allTeams : list Team) (genreFilter ageFilter : string) : list Team :=
  List.filter (team_visible genreFilter ageFilter) allTeams.

(** [genreOptions: Array.from(genreSet).sort()] *)
Definition genreOptions (allTeams : list Team) : list string :=
  str_sort (genreSet (team_options allTeams)).

(** [ageOptions: Array.from(ageSet).sort()] *)
Definition ageOptions (allTeams : list Team) : list string :=
  str_sort (ageSet (team_options allTeams)).

(** [Array.from(map.entries()).map(([id, name]) => ({id, name}))] *)
Definition entries_to_competitions (m : list (Z * string)) : list Competition :=
  map (fun '(i, n) => mkCompetition i n) m.

Section LocaleCompare.

(** [String.prototype.localeCompare] depends on the user's locale: it is a
    parameter of the sorted lists. *)
Variable localeCompare : string -> string -> Z.

(** [.sort((a, b) => a.name.localeCompare(b.name))]: a stable sort that
    keeps [a] before [b] when the comparator is not positive. *)
Definition by_name (a b : Competition) : Prop :=
  localeCompare (comp_name a) (comp_name b) <= 0.
Definition by_name_dec : RelDecision by_name := fun a b => Z_le_dec _ _.
Definition sort_by_name (l : list Competition) : list Competition :=
  @merge_sort _ by_name by_name_dec l.

(** [competitionOptions] *)
Definition competitionOptions (allTeams : list Team) : list Competition :=
  sort_by_name (entries_to_competitions (compMap (team_options allTeams))).

(** [selectedTeamsCompetitions]: all options when no team is selected,
    otherwise the competitions of the selected teams, [Map.set] keeping the
    last name seen for an id. *)
Definition selectedTeamsCompetitions (selectedTeamIds : list Z) (allTeams : list Team)
  : list Competition :=
  if Nat.eqb (length selectedTeamIds) 0 then competitionOptions allTeams else
  let teamCompetitions :=
    flat_map competitions (List.filter (fun t => has selectedTeamIds (team_id t)) allTeams) in
  let commonCompetitions :=
    fold_left (fun m c => map_set m (comp_id c) (comp_name c)) teamCompetitions [] in
  sort_by_name (entries_to_competitions commonCompetitions).

End LocaleCompare.

(** The placeholder of an empty cell (U+2014). *)
Definition dash : string := "—".

(** A cell of the usage table: [playerUsage.usage[playerId]?.[week] || '—']. *)
Definition usage_cell (pu : PlayerUsageData) (playerId week : string) : string :=
  match pu_usage pu !! playerId ≫= lookup week with
  | Some v => if String.eqb v "" then dash else v
  | None => dash
  end.

End TrackerView.

(* ------------------------------------------------------------------ *)
(** ** [App.tsx]: login and the session timer *)

Module App.
Local Open Scope string_scope.

Definition SESSION_DURATION_MS : Z := 30 * 60 * 1000.

(** [App]'s state ([token], [loading], [error]), the [localStorage] entry
    ["authToken"], the firing time of the pending session timeout ([None]
    when there is none: [sessionTimeoutRef] only ever holds the last one
    armed), and the alerts shown. *)
Record AppState := mkApp {
  token : option string;
  loading : bool;
  error : option string;
  authToken : option string;
  sessionTimer : option Z;
  alerts : list string }.

(** [if (token)]: [null] and the empty string are falsy. *)
Definition truthy (v : option string) : bool :=
  match v with
  | Some s => negb (String.eqb s "")
  | None => false
  end.

(** [clearTimeout(sessionTimeoutRef.current)] *)
Definition clear_timer (st : AppState) : AppState :=
  mkApp (token st) (loading st) (error st) (authToken st) None (alerts st).

(** [handleLogout] *)
Definition handleLogout (st : AppState) : AppState :=
  mkApp None (loading st) (error st) None None (alerts st).

(** [resetSessionTimeout] at time [t]: the previous timeout is cleared and
    a new one armed for [t + SESSION_DURATION_MS]. *)
Definition resetSessionTimeout (t : Z) (st : AppState) : AppState :=
  mkApp (token st) (loading st) (error st) (authToken st)
    (Some (t + SESSION_DURATION_MS)) (alerts st).

(** The effect on [[token, resetSessionTimeout]]: the cleanup of the
    previous run clears the timeout, then [if (token) resetSessionTimeout()]. *)
Definition token_effect (t : Z) (st : AppState) : AppState :=
  let st := clear_timer st in
  if truthy (token st) then resetSessionTimeout t st else st.

(** A render commit after an update: the effect runs when [token] changed. *)
Definition commit (t : Z) (old new : AppState) : AppState :=
  if option_eq_dec (token old) (token new) then new else token_effect t new.

(** The first render ([useState(localStorage.getItem('authToken'))]) and the
    mount effect. *)
Definition mount (stored : option string) (t : Z) : AppState :=
  token_effect t (mkApp stored false None stored None []).

(** [handleLogin(username, password)] up to the [setTimeout]. *)
Definition handleLogin (st : AppState) : AppState :=
  mkApp (token st) true None (authToken st) (sessionTimer st) (alerts st).

Definition login_error : string := "Please enter a username and password.".

(** The login callback, run 500 ms later at time [t]. *)
Definition login_callback (username password : string) (t : Z) (st : AppState) : AppState :=
  if negb (String.eqb username "") && negb (String.eqb password "") then
    let dummyToken := "dummy-token-" ++ JsNum.toString t in
    mkApp (Some dummyToken) false (error st) (Some dummyToken) (sessionTimer st) (alerts st)
  else
    mkApp (token st) false (Some login_error) (authToken st) (sessionTimer st) (alerts st).

Definition expiry_alert : string :=
  "Your session has expired due to inactivity. Please log in again.".

(** The session timeout firing at time [t]. *)
Definition session_fires (t : Z) (st : AppState) : AppState :=
  match sessionTimer st with
  | Some d =>
      if Z.leb d t then
        let st' := handleLogout st in
        mkApp (token st') (loading st') (error st') (authToken st') (sessionTimer st')
          (alerts st' ++ [expiry_alert])
      else st
  | None => st
  end.

(** What can happen: the login form is submitted (only shown while
    [token] is falsy), a pending login callback runs, the [Tracker]
    (only shown while [token] is truthy) reports activity or its Logout
    button is clicked, or the clock reaches time [t]. *)
Inductive Event :=
| SubmitLogin
| LoginCallback (username password : string)
| Activity
| LogoutClick
| Tick.

Definition step (t : Z) (e : Event) (st : AppState) : AppState :=
  match e with
  | SubmitLogin => if truthy (token st) then st else handleLogin st
  | LoginCallback u p => commit t st (login_callback u p t st)
  | Activity => if truthy (token st) then resetSessionTimeout t st else st
  | LogoutClick => if truthy (token st) then commit t st (handleLogout st) else st
  | Tick => commit t st (session_fires t st)
  end.

Fixpoint run (st : AppState) (evs : list (Z * Event)) : AppState :=
  match evs with
  | [] => st
  | (t, e) :: r => run (step t e st) r
  end.

End App.

(* ------------------------------------------------------------------ *)
(** ** Concrete scenarios *)

Module Scenarios.
Import Db Clubs Types Sys.
Local Open Scope string_scope.

Definition no_clubs : string -> string -> FetchOutcome (list RawClubData) :=
  fun _ _ => TransportError "offline".
Definition no_teams : Z -> FetchOutcome (list Team) := fun _ => TransportError "offline".

(** Team 1 has matches 100 and 101; team 2's match list answers 500. *)
Definition matches_team1 (teamId competitionId : Z) : FetchOutcome (list MatchStub) :=
  if Z.eqb teamId 1 then Response true 200 (inr [mkStub 100; mkStub 101])
  else Response false 500 (inl "Internal Server Error").

(** Every match list is empty. *)
Definition matches_none (teamId competitionId : Z) : FetchOutcome (list MatchStub) :=
  Response true 200 (inr []).

Definition match_detail (id : Z) : FetchOutcome Match :=
  Response true 200
    (inr (mkMatch id 10 (mkSide 1 "Lag A" [mkPlayer 11 "Ola" "Nordmann"])
                        (mkSide 9 "Lag X" [mkPlayer 12 "Kari" "Nordmann"]))).

Definition empty_db : Database := mkDatabase [] [] [] [].

Definition world_with (nm : Z -> Z -> FetchOutcome (list MatchStub)) : World :=
  mkWorld empty_db 1700000000000 None None no_clubs no_teams nm match_detail [].

(** Teams 1 and 2 selected, competition 7. *)
Definition ui_two_teams : UI :=
  mkUI false false false None "" "" [] (Some (0%nat, mkClub 42 "Klubb")) [] [1; 2] (Some 7) None.

(** Nothing selected. *)
Definition ui_no_selection : UI :=
  mkUI false false false None "" "" [] (Some (0%nat, mkClub 42 "Klubb")) [] [] None None.

Definition old_team : Team := mkTeam 1 "Gammel" 42 "Klubb" [] "Senior" "Herrer".

(** Club 42 is selected and its teams are loaded. *)
Definition ui_club_loaded : UI :=
  mkUI false false false None "" "" [] (Some (0%nat, mkClub 42 "Klubb")) [old_team] [1] (Some 7) None.

(** A [localeCompare] for the examples: code-unit order. *)
Definition lc_witness (a b : string) : Z :=
  match String.compare a b with Lt => -1 | Eq => 0 | Gt => 1 end.

(** A match of week 9 between team 1 (player 7) and team 2 (player 8). *)
Definition usage_player : Player := mkPlayer 7 "Ola" "Nordmann".
Definition usage_match : Match :=
  mkMatch 100 9 (mkSide 1 "Lag A" [usage_player]) (mkSide 2 "Lag B" [mkPlayer 8 "Kari" "Nordmann"]).

(** [App] with nobody logged in, and with a session armed at time 0. *)
Definition app_logged_out : App.AppState := App.mkApp None false None None None [].
Definition app_logged_in : App.AppState :=
  App.mkApp (Some "dummy-token-0") false None (Some "dummy-token-0") (Some App.SESSION_DURATION_MS) [].

(** A club search for "Ski" in season 107, nothing else chosen. *)
Definition ui_query : UI :=
  mkUI false false false None "Ski" "107" [] None [] [] None None.

End Scenarios.

(* ================================================================== *)
(** * Proofs *)

(* ------------------------------------------------------------------ *)
(** ** Number formatting and parsing *)

Module JsNumFacts.
Import JsNum.

Lemma read_digits_uint (u : Decimal.uint) : read_digits (uint_to_string u) = u.
Proof. induction u; simpl; f_equal; assumption. Qed.

Lemma parse_unsigned_uint (u : Decimal.uint) :
  u <> Decimal.Nil -> parse_unsigned (uint_to_string u) = Some (Z.of_uint u).
Proof.
  intros Hu. unfold parse_unsigned. rewrite read_digits_uint.
  destruct u; [contradiction | reflexivity ..].
Qed.

Lemma to_int_not_nil (n : Z) :
  Z.to_int n <> Decimal.Pos Decimal.Nil /\ Z.to_int n <> Decimal.Neg Decimal.Nil.
Proof.
  split; intros H; pose proof (DecimalZ.of_to n) as E; rewrite H in E;
    simpl in E; subst n; discriminate H.
Qed.

(** [parseInt] reads back what [toString] prints. *)
Lemma parseInt_toString (n : Z) : parseInt (toString n) = Some n.
Proof.
  rewrite <- (DecimalZ.of_to n) at 2.
  destruct (to_int_not_nil n) as [Hp Hn].
  unfold toString. destruct (Z.to_int n) as [u | u] eqn:E.
  - assert (u <> Decimal.Nil) by congruence.
    assert (parseInt (uint_to_string u) = parse_unsigned (uint_to_string u)) as ->
      by (destruct u; [contradiction | reflexivity ..]).
    rewrite parse_unsigned_uint by assumption. reflexivity.
  - assert (u <> Decimal.Nil) by congruence.
    unfold parseInt. simpl skip_ws. cbv iota beta.
    rewrite parse_unsigned_uint by assumption. reflexivity.
Qed.

Lemma toString_inj (a b : Z) : toString a = toString b -> a = b.
Proof.
  intros H. apply (f_equal parseInt) in H.
  rewrite !parseInt_toString in H. congruence.
Qed.

End JsNumFacts.

Module JsDoubleFacts.

(** Integers below 2^53 in magnitude are doubles: rounding keeps them. *)
Lemma round_small (z : Z) : Z.abs z < 2 ^ 53 -> JsDouble.round z = z.
Proof.
  intros H. unfold JsDouble.round.
  replace (Z.ltb (Z.abs z) (2 ^ 53)) with true by (symmetry; apply Z.ltb_lt; exact H).
  reflexivity.
Qed.

(** Below 1e21 the double [toString] is the plain decimal form. *)
Lemma toString_small (x : Z) : Z.abs x < 10 ^ 21 -> JsDouble.toString x = JsNum.toString x.
Proof.
  intros H. unfold JsDouble.toString.
  replace (Z.ltb (Z.abs x) (10 ^ 21)) with true by (symmetry; apply Z.ltb_lt; exact H).
  reflexivity.
Qed.

Lemma parseInt_toString_small (n : Z) :
  Z.abs n < 2 ^ 53 -> JsDouble.parseInt (JsNum.toString n) = Some n.
Proof.
  intros H. unfold JsDouble.parseInt. rewrite JsNumFacts.parseInt_toString. simpl.
  rewrite round_small by exact H. reflexivity.
Qed.

End JsDoubleFacts.

(* ------------------------------------------------------------------ *)
(** ** Club parsing *)

Module ClubFacts.
Import Clubs.

Lemma has_In (k : Z) (l : list Z) : existsb (Z.eqb k) l = true <-> In k l.
Proof.
  rewrite existsb_exists. split.
  - intros (x & Hx & E). apply Z.eqb_eq in E. subst. assumption.
  - intros H. exists k. split; [assumption | apply Z.eqb_refl].
Qed.

Lemma map_set_keys {V} (m : list (Z * V)) (k : Z) (v : V) :
  map fst (map_set m k v) =
  if existsb (Z.eqb k) (map fst m) then map fst m else map fst m ++ [k].
Proof.
  induction m as [| [k' v'] r IH]; simpl; [reflexivity |].
  destruct (Z.eqb_spec k' k) as [-> | Hne]; simpl.
  - rewrite Z.eqb_refl. reflexivity.
  - rewrite IH. rewrite (proj2 (Z.eqb_neq k k')) by congruence. simpl.
    destruct (existsb (Z.eqb k) (map fst r)); reflexivity.
Qed.

Lemma map_set_NoDup {V} (m : list (Z * V)) (k : Z) (v : V) :
  NoDup (map fst m) -> NoDup (map fst (map_set m k v)).
Proof.
  intros Hnd. rewrite map_set_keys.
  destruct (existsb (Z.eqb k) (map fst m)) eqn:E; [assumption |].
  apply (proj2 (NoDup_app _ _)). split; [assumption |]. split; [| apply NoDup_singleton].
  intros x Hx Hx'. apply list_elem_of_singleton in Hx'. subst x.
  apply list_elem_of_In, has_In in Hx. congruence.
Qed.

Lemma map_set_In {V} (m : list (Z * V)) (k0 : Z) (v : V) (k : Z) (c : V) :
  NoDup (map fst m) ->
  In (k, c) (map_set m k0 v) <-> (k = k0 /\ c = v) \/ (k <> k0 /\ In (k, c) m).
Proof.
  induction m as [| [k' v'] r IH]; simpl; intros Hnd.
  - split; [intros [E | []]; left; split; congruence | ].
    intros [[-> ->] | [_ []]]; left; reflexivity.
  - inversion Hnd as [| ? ? Hnotin Hnd']; subst.
    destruct (Z.eqb_spec k' k0) as [-> | Hne]; simpl.
    + split.
      * intros [E | H]; [inversion E; subst; left; split; reflexivity |].
        right. split; [| right; assumption].
        intros ->. apply Hnotin, list_elem_of_In. apply (in_map fst) in H. exact H.
      * intros [[-> ->] | [Hne [E | H]]]; [left; reflexivity | | right; assumption].
        inversion E; subst. contradiction.
    + rewrite IH by assumption. split.
      * intros [E | [[-> ->] | [Hne' H]]].
        -- inversion E; subst. right. split; [congruence | left; reflexivity].
        -- left. split; reflexivity.
        -- right. split; [assumption | right; assumption].
      * intros [[-> ->] | [Hne' [E | H]]].
        -- right. left. split; reflexivity.
        -- left. assumption.
        -- right. right. split; assumption.
Qed.

Definition last_step (k : Z) (acc : option RawClubData) (club : RawClubData) :=
  if keep club && (value club =? k) then Some club else acc.

Lemma collect_fold_NoDup (raw : list RawClubData) (m : list (Z * RawClubData)) :
  NoDup (map fst m) -> NoDup (map fst (fold_left collect_step raw m)).
Proof.
  revert m. induction raw as [| r raw IH]; simpl; intros m Hnd; [assumption |].
  apply IH. unfold collect_step. destruct (keep r); [apply map_set_NoDup |]; assumption.
Qed.

(** The entry a fold leaves under [k] is the last kept raw entry with id [k]. *)
Lemma collect_fold_In (raw : list RawClubData) (m : list (Z * RawClubData))
  (k : Z) (oc : option RawClubData) :
  NoDup (map fst m) ->
  (forall c, In (k, c) m <-> oc = Some c) ->
  forall c, In (k, c) (fold_left collect_step raw m) <-> fold_left (last_step k) raw oc = Some c.
Proof.
  revert m oc. induction raw as [| r raw IH]; simpl; intros m oc Hnd Hm; [assumption |].
  apply IH.
  - unfold collect_step. destruct (keep r); [apply map_set_NoDup |]; assumption.
  - intros c. unfold collect_step, last_step.
    destruct (keep r) eqn:Hk; simpl; [| apply Hm].
    rewrite map_set_In by assumption.
    destruct (Z.eqb_spec (value r) k) as [E | Hne].
    + split; [intros [[_ ->] | [Hne _]]; [reflexivity | congruence] |].
      intros Ec. inversion Ec; subst. left. split; reflexivity.
    + rewrite <- Hm. split; [intros [[E _] | [_ H]]; [congruence | assumption] |].
      intros H. right. split; [congruence | assumption].
Qed.

Lemma last_step_fold_props (raw : list RawClubData) (k : Z) (oc : option RawClubData) c :
  fold_left (last_step k) raw oc = Some c ->
  oc = Some c \/ (In c raw /\ keep c = true /\ value c = k).
Proof.
  revert oc. induction raw as [| r raw IH]; simpl; intros oc H; [left; assumption |].
  destruct (IH _ H) as [E | (Hin & Hk & Hv)].
  - unfold last_step in E. destruct (keep r && (value r =? k)) eqn:Hr.
    + inversion E; subst. apply andb_prop in Hr as [Hk Hv].
      right. split; [left; reflexivity |]. split; [assumption | apply Z.eqb_eq; assumption].
    + left. assumption.
  - right. split; [right; assumption |]. split; assumption.
Qed.

Lemma last_step_fold_some (raw : list RawClubData) (k : Z) (oc : option RawClubData) :
  (exists r, In r raw /\ keep r = true /\ value r = k) ->
  exists c, fold_left (last_step k) raw oc = Some c.
Proof.
  revert oc. induction raw as [| r raw IH]; simpl; intros oc (x & Hin & Hk & Hv);
    [contradiction |].
  destruct Hin as [-> | Hin].
  - assert (Hs : forall raw' c0, exists c, fold_left (last_step k) raw' (Some c0) = Some c).
    { clear. induction raw' as [| r raw' IH']; simpl; intros c0; [eexists; reflexivity |].
      unfold last_step at 2. destruct (keep r && (value r =? k)); apply IH'. }
    unfold last_step at 2. rewrite Hk, Hv, Z.eqb_refl. simpl. apply Hs.
  - apply IH. exists x. split; [assumption |]. split; assumption.
Qed.

Lemma parseClubs_In_fold (raw : list RawClubData) (c : Club) :
  In c (parseClubs raw) <->
  exists r, In (value r, r) (fold_left collect_step raw []) /\ c = mkClub (value r) (label r).
Proof.
  unfold parseClubs. rewrite in_map_iff. split.
  - intros ([k r] & <- & Hin).
    pose proof (collect_fold_In raw [] k None NoDup_nil_2) as HF.
    assert (Hk : value r = k).
    { apply HF in Hin; [| intros c0; split; [intros [] | discriminate]].
      apply last_step_fold_props in Hin as [? | (_ & _ & Hv)]; [discriminate | assumption]. }
    subst k. exists r. split; [assumption | reflexivity].
  - intros (r & Hin & ->). exists (value r, r). split; [reflexivity | assumption].
Qed.

End ClubFacts.

(* ------------------------------------------------------------------ *)
(** ** The fold step *)

Module FoldFacts.
Import Types Tracker.

Lemma set_has_In (s : list Z) (x : Z) : has s x = true <-> In x s.
Proof. unfold has. apply ClubFacts.has_In. Qed.

Lemma set_add_NoDup (s : list Z) (x : Z) : NoDup s -> NoDup (set_add s x).
Proof.
  unfold set_add. destruct (has s x) eqn:E; intros Hnd; [assumption |].
  apply (proj2 (NoDup_app _ _)). split; [assumption |]. split; [| apply NoDup_singleton].
  intros y Hy Hy'. apply list_elem_of_singleton in Hy'. subst y.
  apply list_elem_of_In, set_has_In in Hy. congruence.
Qed.

Lemma week_label_inj (a b : Z) : week_label a = week_label b -> a = b.
Proof.
  unfold week_label. simpl. intros H. injection H as H.
  apply JsNumFacts.toString_inj. exact H.
Qed.

(** Keys of [usage] are keys of [players]. *)
Definition usage_in_players (pl : gmap string string) (us : gmap string (gmap string string)) :=
  forall k, is_Some (us !! k) -> is_Some (pl !! k).

Lemma register_player_inv (team : Side) (wk : Z) pl us (p : Player) :
  usage_in_players pl us ->
  let '(pl', us') := register_player team wk (pl, us) p in usage_in_players pl' us'.
Proof.
  unfold register_player. intros Hinv.
  set (pid := JsNum.toString (personId p)).
  destruct (falsy (pl !! pid)) eqn:Hf; cbv beta iota.
  - intros k. rewrite !lookup_insert. destruct (decide (pid = k)) as [<- | Hne].
    + intros _. eexists. reflexivity.
    + apply Hinv.
  - intros k. rewrite lookup_insert. destruct (decide (pid = k)) as [<- | Hne].
    + intros _. destruct (pl !! pid) eqn:E; [eexists; reflexivity | discriminate].
    + apply Hinv.
Qed.

Lemma register_fold_inv (team : Side) (wk : Z) (ps : list Player) pl us :
  usage_in_players pl us ->
  let '(pl', us') := fold_left (register_player team wk) ps (pl, us) in
  usage_in_players pl' us'.
Proof.
  revert pl us. induction ps as [| p ps IH]; cbn [fold_left]; intros pl us Hinv;
    [assumption |].
  pose proof (register_player_inv team wk pl us p Hinv) as H.
  destruct (register_player team wk (pl, us) p) as [pl' us'].
  apply IH. exact H.
Qed.

Definition acc_ok (acc : FoldAcc) : Prop :=
  usage_in_players (acc_players acc) (acc_usage acc) /\ NoDup (acc_weeks acc).

Lemma fold_match_inv (sel : list Z) (acc : FoldAcc) (m : Match) :
  acc_ok acc -> acc_ok (fold_match sel acc m).
Proof.
  intros [Hu Hw]. unfold fold_match.
  set (team := if has sel (side_id (homeTeam m)) then homeTeam m else awayTeam m).
  destruct (negb (has sel (side_id team))); [split; assumption |].
  pose proof (register_fold_inv team (week m) (players team) _ _ Hu) as H.
  destruct (fold_left (register_player team (week m)) (players team)
              (acc_players acc, acc_usage acc)) as [pl us].
  split; [exact H | apply set_add_NoDup; exact Hw].
Qed.

Lemma fold_matches_inv (sel : list Z) (ms : list Match) (acc : FoldAcc) :
  acc_ok acc -> acc_ok (fold_left (fold_match sel) ms acc).
Proof.
  revert acc. induction ms as [| m ms IH]; simpl; intros acc H; [assumption |].
  apply IH, fold_match_inv, H.
Qed.

Lemma StronglySorted_le_lt (l : list Z) :
  StronglySorted Z.le l -> NoDup l -> StronglySorted Z.lt l.
Proof.
  induction l as [| x l IH]; intros Hs Hnd; [constructor |].
  apply StronglySorted_inv in Hs as [Hs Hf].
  apply NoDup_cons in Hnd as [Hx Hnd].
  constructor; [apply IH; assumption |].
  rewrite Forall_forall in Hf |- *. intros y Hy.
  specialize (Hf y Hy). assert (x <> y); [| lia].
  intros ->. apply Hx, Hy.
Qed.

Lemma NoDup_map_inj {A B} (f : A -> B) (l : list A) :
  (forall a b, f a = f b -> a = b) -> NoDup l -> NoDup (map f l).
Proof.
  intros Hinj. induction l as [| x l IH]; intros Hnd; simpl; [constructor |].
  apply NoDup_cons in Hnd as [Hx Hnd]. constructor; [| apply IH, Hnd].
  intros Hin. apply list_elem_of_In, in_map_iff in Hin as (y & E & Hy).
  apply Hinj in E. subst y. apply Hx, list_elem_of_In, Hy.
Qed.

End FoldFacts.

(* ------------------------------------------------------------------ *)
(** ** The effect model *)

Module EffectFacts.
Import Db Types Sys Io Tracker.

Lemma bind_ok {A B} (m : M A) (f : A -> M B) (s : State) (a : A) (s' : State) :
  m s = (Ok a, s') -> (m ≫= f) s = f a s'.
Proof. intros H. unfold mbind, M_bind. rewrite H. reflexivity. Qed.

Lemma bind_err {A B} (m : M A) (f : A -> M B) (s : State) (e : string) (s' : State) :
  m s = (Err e, s') -> (m ≫= f) s = (Err e, s').
Proof. intros H. unfold mbind, M_bind. rewrite H. reflexivity. Qed.

(** A computation that leaves the component state alone. *)
Definition ui_pure {A} (m : M A) : Prop := forall u w, fst (snd (m (u, w))) = u.

Lemma cacheOrFetch_ui {T} (st : Store T) (k : Key) (url token : string)
  (endpoint : World -> FetchOutcome T) (msg : string) :
  ui_pure (cacheOrFetch st k url token endpoint msg).
Proof.
  intros u w. unfold cacheOrFetch, getFromDB, dateNow, apiFetch, fetch, json, setToDB, throw.
  unfold mbind, M_bind, mret, M_ret. cbn. destruct (db_read_error w); cbn; [reflexivity |].
  destruct (fresh_data _ _); cbn; [reflexivity |].
  destruct (endpoint _) as [e | ok status body]; cbn; [reflexivity |].
  destruct ok; cbn; [| reflexivity].
  destruct body; cbn; [reflexivity |].
  destruct (db_write_error _); reflexivity.
Qed.

Lemma cacheOrFetch_db_failed {T} (st : Store T) (k : Key) (url token : string)
  (endpoint : World -> FetchOutcome T) (msg : string) (u : UI) (w : World) :
  (forall o w', endpoint (log o w') = endpoint w') ->
  fetch_failed (endpoint w) = true ->
  db (snd (snd (cacheOrFetch st k url token endpoint msg (u, w)))) = db w.
Proof.
  intros Hend Hf. unfold cacheOrFetch, getFromDB, dateNow, apiFetch, fetch, json, setToDB, throw.
  unfold mbind, M_bind, mret, M_ret. cbn.
  destruct (db_read_error w); cbn; [reflexivity |].
  destruct (fresh_data _ _); cbn; [reflexivity |].
  rewrite Hend. destruct (endpoint w) as [e | ok status body]; cbn; [reflexivity |].
  destruct ok; cbn; [| reflexivity].
  destruct body; cbn; [reflexivity | discriminate].
Qed.

Lemma run_all_ok {A} (ts : list (M A)) (s : State) :
  exists rs s', run_all ts s = (Ok rs, s').
Proof.
  revert s. induction ts as [| t ts IH]; intros s; [eexists _, _; reflexivity |].
  cbn [run_all]. unfold mbind, M_bind, mret, M_ret, attempt.
  destruct (t s) as [r s1]. destruct (IH s1) as (rs & s' & E).
  unfold mbind, M_bind in E. rewrite E. eexists _, _. reflexivity.
Qed.

Lemma run_all_ui {A} (ts : list (M A)) :
  Forall ui_pure ts -> ui_pure (run_all ts).
Proof.
  induction ts as [| t ts IH]; intros Hall u w; [reflexivity |].
  apply Forall_cons in Hall as [Ht Hts].
  cbn [run_all]. unfold mbind, M_bind, mret, M_ret, attempt.
  pose proof (Ht u w) as Hu. destruct (t (u, w)) as [r [u1 w1]]. simpl in Hu. subst u1.
  pose proof (IH Hts u w1) as Hu'. destruct (run_all ts (u, w1)) as [[rs | e] [u2 w2]];
    simpl in *; assumption.
Qed.

Lemma stageC_ui (token : string) (c : Z) (sel : list Z) :
  ui_pure (run_all (map (matchListTask token c) sel)).
Proof.
  apply run_all_ui. apply Forall_forall. intros t Ht.
  apply list_elem_of_In, in_map_iff in Ht as (id & <- & _). apply cacheOrFetch_ui.
Qed.

Lemma stageD_ui (token : string) (ids : list Z) :
  ui_pure (run_all (map (matchDetailTask token) ids)).
Proof.
  apply run_all_ui. apply Forall_forall. intros t Ht.
  apply list_elem_of_In, in_map_iff in Ht as (id & <- & _). apply cacheOrFetch_ui.
Qed.

Lemma all_results_err {A} (rs : list (Result A)) (m : string) :
  In (Err m) rs -> exists m', all_results rs = Err m' /\ In (Err m') rs.
Proof.
  induction rs as [| [a | e] rs IH]; simpl; intros H; [contradiction | |].
  - destruct H as [H | H]; [discriminate |].
    destruct (IH H) as (m' & E & Hin). rewrite E. exists m'. split; [reflexivity | right; exact Hin].
  - exists e. split; [reflexivity | left; reflexivity].
Qed.

(** After validation, the handler is [usage_start], the [try] body, and the
    [catch] / [finally] steps. *)
Lemma handle_valid (token : string) (ui : UI) (w : World) (sel : list Z) (c : Z) :
  validate ui = Some (sel, c) ->
  handleFetchPlayerUsage token (ui, w) =
    (let '(r, s2) := analysis_body token sel c (snd (usage_start (ui, w))) in
     ((match r with
       | Err e => setError (Some e)
       | Ok _ => mret tt
       end) ≫= fun _ => setLoadingUsage false) s2).
Proof.
  intros Hv. unfold handleFetchPlayerUsage.
  rewrite (bind_ok get_ui _ (ui, w) ui (ui, w) eq_refl). rewrite Hv.
  rewrite (bind_ok usage_start _ (ui, w) tt (snd (usage_start (ui, w))) eq_refl).
  unfold mbind at 1, M_bind at 1, attempt.
  destruct (analysis_body token sel c (snd (usage_start (ui, w)))) as [r s2]. reflexivity.
Qed.

Lemma promise_all_eq {A} (ts : list (M A)) (s : State) rs s' :
  run_all ts s = (Ok rs, s') -> promise_all ts s = (all_results rs, s').
Proof. intros H. unfold promise_all. rewrite (bind_ok _ _ _ _ _ H). reflexivity. Qed.

(** What [fetchTeams] does to the component state: only [allTeams] (and the
    loading flag and error) change, and [allTeams] is either kept, or the
    fresh cached list, or the list the endpoint returned. *)
Lemma fetchTeams_fields (token : string) (club : Clubs.Club) (u : UI) (w : World) :
  let u' := fst (snd (fetchTeams token club (u, w))) in
  selectedClub u' = selectedClub u /\ selectedTeamIds u' = selectedTeamIds u
  /\ competitionId u' = competitionId u /\ playerUsage u' = playerUsage u
  /\ clubs u' = clubs u /\ clubQuery u' = clubQuery u
  /\ (allTeams u' = allTeams u
      \/ (exists it, store_get (teams (db w)) (KNum (Clubs.id club)) = Some it
                     /\ isCacheValid (now w) (Some it) = true /\ allTeams u' = data it)
      \/ (exists status, net_teams w (Clubs.id club) = Response true status (inr (allTeams u')))).
Proof.
  unfold fetchTeams, onActivity, modify_world, setLoadingTeams, setError, modify_ui, attempt,
    getFromDB, dateNow, apiFetch, fetch, json, setToDB, throw, setAllTeams.
  unfold mbind, M_bind, mret, M_ret. cbn.
  destruct (db_read_error w); cbn; [repeat split; left; reflexivity |].
  change (find _ (teams (db w))) with (store_get (teams (db w)) (KNum (Clubs.id club))).
  destruct (store_get (teams (db w)) (KNum (Clubs.id club))) as [it |] eqn:Eg; cbn.
  2:{ destruct (net_teams w _) as [e | ok status body] eqn:En; cbn;
        [repeat split; left; reflexivity |].
      destruct ok; cbn; [| repeat split; left; reflexivity].
      destruct body as [e | data]; cbn; [repeat split; left; reflexivity |].
      destruct (db_write_error _); cbn; repeat split; right; right; exists status; reflexivity. }
  destruct (now w - timestamp it <? CACHE_DURATION_MS) eqn:Ev; cbn.
  { repeat split. right. left. exists it. split; [reflexivity |]. split; [exact Ev | reflexivity]. }
  destruct (net_teams w _) as [e | ok status body] eqn:En; cbn;
    [repeat split; left; reflexivity |].
  destruct ok; cbn; [| repeat split; left; reflexivity].
  destruct body as [e | data]; cbn; [repeat split; left; reflexivity |].
  destruct (db_write_error _); cbn; repeat split; right; right; exists status; reflexivity.
Qed.

(** [fetchTeams] catches every failure: it always completes. *)
Lemma fetchTeams_ok (token : string) (club : Clubs.Club) (s : State) :
  exists s', fetchTeams token club s = (Ok tt, s').
Proof.
  destruct s as [u w].
  unfold fetchTeams, onActivity, modify_world, setLoadingTeams, setError, modify_ui, attempt,
    getFromDB, dateNow, apiFetch, fetch, json, setToDB, throw, setAllTeams.
  unfold mbind, M_bind, mret, M_ret. cbn.
  destruct (db_read_error w); cbn; [eexists; reflexivity |].
  destruct (fresh_data _ _); cbn; [eexists; reflexivity |].
  destruct (net_teams w _) as [e | ok status body]; cbn; [eexists; reflexivity |].
  destruct ok; cbn; [| eexists; reflexivity].
  destruct body; cbn; [eexists; reflexivity |].
  destruct (db_write_error _); cbn; eexists; reflexivity.
Qed.

End EffectFacts.

(* ================================================================== *)
(** * The claims *)

(* ------------------------------------------------------------------ *)
Module StoreFacts.
Import Db Sys Io.

Lemma key_eqb_eq (a b : Key) : key_eqb a b = true <-> a = b.
Proof.
  destruct a as [x | x], b as [y | y]; simpl; split; intros H; try discriminate.
  - apply String.eqb_eq in H. congruence.
  - injection H as ->. apply String.eqb_refl.
  - apply Z.eqb_eq in H. congruence.
  - injection H as ->. apply Z.eqb_refl.
Qed.

Lemma store_get_put_same {T} (st : list (CacheItem T)) (it : CacheItem T) :
  store_get (store_put st it) (key it) = Some it.
Proof.
  unfold store_get, store_put. simpl.
  rewrite (proj2 (key_eqb_eq _ _) eq_refl). reflexivity.
Qed.

(** The [filter] of [store_put] is the boolean one. *)
Lemma filter_bool {A} (p : A -> bool) (l : list A) :
  filter (fun x => p x) l = List.filter p l.
Proof.
  induction l as [| a l IH]; [reflexivity |].
  rewrite filter_cons. simpl. case_decide as Hd.
  - apply Is_true_true in Hd. rewrite Hd, IH. reflexivity.
  - destruct (p a); [exfalso; apply Hd; exact I | exact IH].
Qed.

Lemma store_get_put_other {T} (st : list (CacheItem T)) (it : CacheItem T) (k : Key) :
  k <> key it -> store_get (store_put st it) k = store_get st k.
Proof.
  intros Hk. unfold store_get, store_put. simpl.
  destruct (key_eqb (key it) k) eqn:E; [apply key_eqb_eq in E; congruence |].
  rewrite (filter_bool (fun it' => negb (key_eqb (key it') (key it)))).
  induction st as [| it' st IH]; simpl; [reflexivity |].
  destruct (key_eqb (key it') (key it)) eqn:E1; simpl.
  - apply key_eqb_eq in E1.
    destruct (key_eqb (key it') k) eqn:E2; [apply key_eqb_eq in E2; congruence |].
    exact IH.
  - destruct (key_eqb (key it') k); [reflexivity | exact IH].
Qed.

End StoreFacts.

(* ------------------------------------------------------------------ *)
Module ToggleFacts.
Import Tracker TrackerView.

Lemma set_delete_In (s : list Z) (x y : Z) : In y (set_delete s x) <-> In y s /\ y <> x.
Proof.
  unfold set_delete. rewrite filter_In. rewrite negb_true_iff, Z.eqb_neq. reflexivity.
Qed.

Lemma set_add_In (s : list Z) (x y : Z) : In y (set_add s x) <-> In y s \/ y = x.
Proof.
  unfold set_add. destruct (has s x) eqn:E.
  - apply FoldFacts.set_has_In in E. split; [left; assumption |].
    intros [H | ->]; assumption.
  - rewrite in_app_iff. simpl. split; intros [H | H]; auto.
    destruct H as [<- | []]. right. reflexivity.
Qed.

Lemma NoDup_filter_l (p : Z -> bool) (s : list Z) : NoDup s -> NoDup (List.filter p s).
Proof.
  induction s as [| a s IH]; simpl; intros Hnd; [assumption |].
  apply NoDup_cons in Hnd as [Ha Hnd].
  destruct (p a); [| apply IH, Hnd].
  apply NoDup_cons. split; [| apply IH, Hnd].
  intros Hin. apply list_elem_of_In, filter_In in Hin as [Hin _].
  apply Ha, list_elem_of_In, Hin.
Qed.

Lemma toggle_NoDup (s : list Z) (x : Z) : NoDup s -> NoDup (toggle s x).
Proof.
  unfold toggle. destruct (has s x); intros Hnd.
  - apply NoDup_filter_l, Hnd.
  - apply FoldFacts.set_add_NoDup, Hnd.
Qed.

Lemma toggle_In (s : list Z) (x y : Z) :
  In y (toggle s x) <-> (y = x /\ ~ In x s) \/ (y <> x /\ In y s).
Proof.
  unfold toggle. destruct (has s x) eqn:E.
  - apply FoldFacts.set_has_In in E. rewrite set_delete_In. tauto.
  - assert (~ In x s) by (intros H; apply FoldFacts.set_has_In in H; congruence).
    rewrite set_add_In. destruct (Z.eq_dec y x) as [-> | Hne]; tauto.
Qed.

Lemma set_delete_notin (s : list Z) (x : Z) : ~ In x s -> set_delete s x = s.
Proof.
  unfold set_delete. induction s as [| a s IH]; simpl; intros H; [reflexivity |].
  destruct (Z.eqb_spec a x) as [-> | Hne]; simpl.
  - exfalso. apply H. left. reflexivity.
  - f_equal. apply IH. intros Hin. apply H. right. assumption.
Qed.

Lemma set_delete_app_last (s : list Z) (x : Z) :
  ~ In x s -> set_delete (s ++ [x]) x = s.
Proof.
  intros H. unfold set_delete. rewrite List.filter_app. simpl. rewrite Z.eqb_refl. simpl.
  rewrite app_nil_r. apply set_delete_notin, H.
Qed.

Lemma handleTeamSelection_run (x : Z) (u : Sys.UI) (w : Sys.World) :
  Sys.selectedTeamIds (fst (snd (handleTeamSelection x (u, w)))) = toggle (Sys.selectedTeamIds u) x.
Proof. reflexivity. Qed.

End ToggleFacts.

(* ------------------------------------------------------------------ *)
Module OptionFacts.
Import Types Tracker TrackerView.
Local Open Scope string_scope.

Lemma string_compare_le_trans (a b c : string) :
  String.compare a b <> Gt -> String.compare b c <> Gt -> String.compare a c <> Gt.
Proof.
  revert b c. induction a as [| x a IH]; intros b c Hab Hbc.
  - destruct c; simpl; discriminate.
  - destruct b as [| y b]; [simpl in Hab; congruence |].
    destruct c as [| z c]; [simpl in Hbc; congruence |].
    simpl in *. unfold Ascii.compare in *.
    destruct (N.compare_spec (Ascii.N_of_ascii x) (Ascii.N_of_ascii y)) as [Exy | Lxy | Gxy];
      [| | congruence];
      destruct (N.compare_spec (Ascii.N_of_ascii y) (Ascii.N_of_ascii z)) as [Eyz | Lyz | Gyz];
      try congruence.
    + rewrite Exy, Eyz, N.compare_refl. apply (IH b c); assumption.
    + rewrite Exy. rewrite (proj2 (N.compare_lt_iff _ _) Lyz). discriminate.
    + rewrite <- Eyz. rewrite (proj2 (N.compare_lt_iff _ _) Lxy). discriminate.
    + rewrite (proj2 (N.compare_lt_iff _ _)) by lia. discriminate.
Qed.

Lemma str_le_trans : Transitive str_le.
Proof.
  intros a b c. unfold str_le, String.leb.
  destruct (String.compare a b) eqn:E1; try discriminate;
  destruct (String.compare b c) eqn:E2; try discriminate;
  destruct (String.compare a c) eqn:E3; try reflexivity;
  exfalso; apply (string_compare_le_trans a b c); congruence.
Qed.

Lemma str_le_total : Total str_le.
Proof. intros a b. apply String.leb_total. Qed.

Lemma str_sort_props (l : list string) :
  StronglySorted str_le (str_sort l) /\ str_sort l ≡ₚ l.
Proof.
  split.
  - apply StronglySorted_merge_sort; [apply str_le_trans | apply str_le_total].
  - apply merge_sort_Permutation.
Qed.

Lemma str_add_fold (l : list string) (s : list string) :
  NoDup s -> NoDup (fold_left str_add l s)
             /\ forall y, In y (fold_left str_add l s) <-> In y s \/ In y l.
Proof.
  revert s. induction l as [| x l IH]; simpl; intros s Hnd.
  - split; [assumption | tauto].
  - assert (Hs : NoDup (str_add s x) /\ forall y, In y (str_add s x) <-> In y s \/ y = x).
    { unfold str_add. destruct (existsb (String.eqb x) s) eqn:E.
      - apply existsb_exists in E as (x' & Hx' & Ex). apply String.eqb_eq in Ex. subst x'.
        split; [assumption |]. intros y. split; [tauto | intros [H | ->]; assumption].
      - split.
        + apply (proj2 (NoDup_app _ _)). split; [assumption |]. split; [| apply NoDup_singleton].
          intros y Hy Hy'. apply list_elem_of_singleton in Hy'. subst y.
          apply list_elem_of_In in Hy.
          assert (existsb (String.eqb x) s = true) by
            (apply existsb_exists; exists x; split; [assumption | apply String.eqb_refl]).
          congruence.
        + intros y. rewrite in_app_iff. simpl. split; intros [H | H]; auto.
          destruct H as [<- | []]. right. reflexivity. }
    destruct Hs as [Hnd' Hin]. destruct (IH _ Hnd') as [H1 H2]. split; [assumption |].
    intros y. rewrite H2, Hin. split; intros H; intuition (subst; auto).
Qed.

Lemma team_options_fold (ts : list Team) (o : TeamOptions) :
  fold_left options_step ts o =
  mkOptions (fold_left str_add (map genre ts) (genreSet o))
            (fold_left str_add (map ageCategory ts) (ageSet o))
            (fold_left comp_first (flat_map competitions ts) (compMap o)).
Proof.
  revert o. induction ts as [| t ts IH]; intros o; simpl.
  - destruct o; reflexivity.
  - rewrite IH. simpl. rewrite fold_left_app. reflexivity.
Qed.

Lemma genreSet_props (ts : list Team) :
  NoDup (genreSet (team_options ts))
  /\ forall g, In g (genreSet (team_options ts)) <-> exists t, In t ts /\ genre t = g.
Proof.
  unfold team_options. rewrite team_options_fold. simpl.
  destruct (str_add_fold (map genre ts) [] (NoDup_nil_2)) as [H1 H2].
  split; [assumption |]. intros g. rewrite H2, in_map_iff. simpl. firstorder.
Qed.

Lemma ageSet_props (ts : list Team) :
  NoDup (ageSet (team_options ts))
  /\ forall a, In a (ageSet (team_options ts)) <-> exists t, In t ts /\ ageCategory t = a.
Proof.
  unfold team_options. rewrite team_options_fold. simpl.
  destruct (str_add_fold (map ageCategory ts) [] (NoDup_nil_2)) as [H1 H2].
  split; [assumption |]. intros a. rewrite H2, in_map_iff. simpl. firstorder.
Qed.

Lemma NoDup_Permutation_l {A} (l l' : list A) : l ≡ₚ l' -> NoDup l' -> NoDup l.
Proof. intros Hp Hnd. rewrite Hp. exact Hnd. Qed.

Lemma In_Permutation {A} (l l' : list A) (x : A) : l ≡ₚ l' -> In x l <-> In x l'.
Proof. intros Hp. rewrite <- !list_elem_of_In. rewrite Hp. reflexivity. Qed.

Lemma filteredTeams_In (ts : list Team) (g a : string) (t : Team) :
  In t (filteredTeams ts g a) <->
  In t ts /\ (g = "" \/ genre t = g) /\ (a = "" \/ ageCategory t = a).
Proof.
  unfold filteredTeams, team_visible. rewrite filter_In, !andb_true_iff, !orb_true_iff,
    !String.eqb_eq. reflexivity.
Qed.

Lemma comp_first_fold (l : list Competition) (m : list (Z * string)) :
  NoDup (map fst m) ->
  NoDup (map fst (fold_left comp_first l m))
  /\ forall i n, In (i, n) (fold_left comp_first l m) <->
       In (i, n) m \/ (~ In i (map fst m) /\
         option_map comp_name (List.find (fun c => Z.eqb (comp_id c) i) l) = Some n).
Proof.
  revert m. induction l as [| c l IH]; simpl; intros m Hnd.
  - split; [assumption |]. intros i n. split; [tauto |].
    intros [H | [_ H]]; [assumption | discriminate].
  - assert (Hkey : forall i n, In (i, n) m -> In i (map fst m))
      by (intros i n H; apply (in_map fst) in H; exact H).
    destruct (existsb (Z.eqb (comp_id c)) (map fst m)) eqn:E.
    + assert (Hc : comp_first m c = m) by (unfold comp_first; rewrite E; reflexivity).
      rewrite Hc. destruct (IH m Hnd) as [H1 H2]. split; [assumption |].
      apply ClubFacts.has_In in E.
      intros i n. rewrite H2.
      destruct (Z.eqb_spec (comp_id c) i) as [<- | Hne].
      * split; [intros [H | [Hn _]]; [left; assumption | contradiction] |].
        intros [H | [Hn _]]; [left; assumption | contradiction].
      * reflexivity.
    + assert (Hc : comp_first m c = Clubs.map_set m (comp_id c) (comp_name c))
        by (unfold comp_first; rewrite E; reflexivity).
      rewrite Hc.
      assert (Hnd' := ClubFacts.map_set_NoDup m (comp_id c) (comp_name c) Hnd).
      destruct (IH _ Hnd') as [H1 H2]. split; [assumption |].
      assert (Hnot : ~ In (comp_id c) (map fst m))
        by (intros H; apply ClubFacts.has_In in H; congruence).
      intros i n. rewrite H2, ClubFacts.map_set_In by assumption.
      rewrite ClubFacts.map_set_keys, E, in_app_iff. simpl.
      destruct (Z.eqb_spec (comp_id c) i) as [<- | Hne]; simpl.
      * split.
        -- intros [[[_ ->] | [Hne _]] | [Hn _]]; [| congruence | tauto].
           right. split; [assumption | reflexivity].
        -- intros [H | [_ Hn]]; [apply Hkey in H; contradiction |].
           injection Hn as <-. left. left. split; reflexivity.
      * split.
        -- intros [[[E1 _] | [_ H]] | [Hn H]]; [congruence | left; assumption |].
           right. split; [tauto | assumption].
        -- intros [H | [Hn H]]; [left; right; split; [congruence | assumption] |].
           right. split; [| assumption]. intros [? | [? | []]]; [contradiction | congruence].
Qed.

(** The [Map.set] fold of [selectedTeamsCompetitions]. *)
Lemma set_fold_props (l : list Competition) (m : list (Z * string)) :
  NoDup (map fst m) ->
  NoDup (map fst (fold_left (fun m c => Clubs.map_set m (comp_id c) (comp_name c)) l m))
  /\ (forall i, In i (map fst (fold_left (fun m c => Clubs.map_set m (comp_id c) (comp_name c)) l m))
                <-> In i (map fst m) \/ exists c, In c l /\ comp_id c = i)
  /\ (forall i n, In (i, n) (fold_left (fun m c => Clubs.map_set m (comp_id c) (comp_name c)) l m)
                  -> In (i, n) m \/ exists c, In c l /\ comp_id c = i /\ comp_name c = n).
Proof.
  revert m. induction l as [| c l IH]; simpl; intros m Hnd.
  - split; [assumption |]. split; [intros i; split; [tauto | intros [H | (_ & [] & _)]; assumption] |].
    intros i n H. left. assumption.
  - assert (Hnd' := ClubFacts.map_set_NoDup m (comp_id c) (comp_name c) Hnd).
    destruct (IH _ Hnd') as (H1 & H2 & H3). split; [assumption |]. split.
    + intros i. rewrite H2, ClubFacts.map_set_keys.
      destruct (existsb (Z.eqb (comp_id c)) (map fst m)) eqn:E.
      * apply ClubFacts.has_In in E. split.
        -- intros [H | (c' & Hc' & Ei)]; [left; assumption |].
           right. exists c'. split; [right; assumption | assumption].
        -- intros [H | (c' & [<- | Hc'] & Ei)]; [left; assumption | subst i; left; assumption |].
           right. exists c'. split; assumption.
      * rewrite in_app_iff. simpl. split.
        -- intros [[H | [Ei | []]] | (c' & Hc' & Ei)]; [left; assumption | |].
           ++ right. exists c. split; [left; reflexivity | assumption].
           ++ right. exists c'. split; [right; assumption | assumption].
        -- intros [H | (c' & [<- | Hc'] & Ei)]; [left; left; assumption | left; right; left; assumption |].
           right. exists c'. split; assumption.
    + intros i n H. apply H3 in H as [H | (c' & Hc' & Ei & En)].
      * apply ClubFacts.map_set_In in H as [[-> ->] | [_ H]]; [| left; assumption | assumption].
        right. exists c. split; [left; reflexivity | split; reflexivity].
      * right. exists c'. split; [right; assumption | split; assumption].
Qed.

Lemma entries_In (m : list (Z * string)) (c : Competition) :
  In c (entries_to_competitions m) <-> In (comp_id c, comp_name c) m.
Proof.
  unfold entries_to_competitions. rewrite in_map_iff. split.
  - intros ([i n] & <- & H). exact H.
  - intros H. exists (comp_id c, comp_name c). split; [destruct c; reflexivity | exact H].
Qed.

Lemma entries_ids (m : list (Z * string)) :
  map comp_id (entries_to_competitions m) = map fst m.
Proof.
  unfold entries_to_competitions. rewrite map_map.
  apply map_ext. intros [i n]. reflexivity.
Qed.

Lemma sort_by_name_perm (lc : string -> string -> Z) (l : list Competition) :
  sort_by_name lc l ≡ₚ l.
Proof. unfold sort_by_name. apply merge_sort_Permutation. Qed.

End OptionFacts.

(* ------------------------------------------------------------------ *)
Module UsageFacts.
Import Types Tracker.
Local Open Scope string_scope.

(** [usage[k]?.[wl]] *)
Definition cell_of (us : gmap string (gmap string string)) (k wl : string) : option string :=
  us !! k ≫= lookup wl.

(** [team.players.forEach]'s body either leaves a cell as it was or writes
    the side's name into the week of the player just registered. *)
Lemma register_step_sound (team : Side) (wk : Z) pl us (p : Player) k wl v :
  cell_of (snd (register_player team wk (pl, us) p)) k wl = Some v ->
  cell_of us k wl = Some v
  \/ (k = JsNum.toString (personId p) /\ wl = week_label wk /\ v = side_name team).
Proof.
  unfold register_player, cell_of. set (pid := JsNum.toString (personId p)).
  destruct (falsy (pl !! pid)); cbn [snd];
    rewrite lookup_insert; destruct (decide (pid = k)) as [<- | Hne].
  - rewrite lookup_insert_eq. cbn. rewrite lookup_insert_Some.
    intros [[<- <-] | [_ H]]; [right; auto | rewrite lookup_empty in H; discriminate].
  - rewrite lookup_insert_ne by assumption. left. assumption.
  - cbn. destruct (us !! pid) as [inner |] eqn:E; cbn; rewrite lookup_insert_Some.
    + intros [[<- <-] | [_ H]]; [right; auto | left; exact H].
    + intros [[<- <-] | [_ H]]; [right; auto | rewrite lookup_empty in H; discriminate].
  - left. assumption.
Qed.

Lemma register_fold_sound (team : Side) (wk : Z) (ps : list Player) pl us k wl v :
  cell_of (snd (fold_left (register_player team wk) ps (pl, us))) k wl = Some v ->
  cell_of us k wl = Some v
  \/ (exists p, In p ps /\ k = JsNum.toString (personId p)
                /\ wl = week_label wk /\ v = side_name team).
Proof.
  revert pl us. induction ps as [| p ps IH]; cbn [fold_left]; intros pl us H; [left; exact H |].
  destruct (register_player team wk (pl, us) p) as [pl1 us1] eqn:E.
  apply IH in H as [H | (p' & Hp' & Hk)].
  - pose proof (register_step_sound team wk pl us p k wl v) as Hs. rewrite E in Hs.
    apply Hs in H as [H | (Hk & Hw & Hv)]; [left; exact H |].
    right. exists p. split; [left; reflexivity | auto].
  - right. exists p'. split; [right; assumption | exact Hk].
Qed.

(** A match counted by the fold: its chosen side is a selected team. *)
Definition counted (sel : list Z) (m : Match) (team : Side) : Prop :=
  team = (if has sel (side_id (homeTeam m)) then homeTeam m else awayTeam m)
  /\ has sel (side_id team) = true.

Lemma fold_match_sound (sel : list Z) (acc : FoldAcc) (m : Match) k wl v :
  cell_of (acc_usage (fold_match sel acc m)) k wl = Some v ->
  cell_of (acc_usage acc) k wl = Some v
  \/ (exists team p, counted sel m team /\ In p (players team)
        /\ k = JsNum.toString (personId p) /\ wl = week_label (week m) /\ v = side_name team).
Proof.
  unfold fold_match.
  set (team := if has sel (side_id (homeTeam m)) then homeTeam m else awayTeam m).
  destruct (has sel (side_id team)) eqn:Hs; cbn [negb]; [| left; assumption].
  pose proof (register_fold_sound team (week m) (players team) (acc_players acc) (acc_usage acc) k wl v)
    as Hf.
  destruct (fold_left (register_player team (week m)) (players team)
              (acc_players acc, acc_usage acc)) as [pl us]. cbn in *.
  intros H. apply Hf in H as [H | (p & Hp & Hk)]; [left; exact H |].
  right. exists team, p. split; [split; [reflexivity | exact Hs] |]. split; assumption.
Qed.

Lemma fold_matches_sound (sel : list Z) (ms : list Match) (acc : FoldAcc) k wl v :
  cell_of (acc_usage (fold_left (fold_match sel) ms acc)) k wl = Some v ->
  cell_of (acc_usage acc) k wl = Some v
  \/ (exists m team p, In m ms /\ counted sel m team /\ In p (players team)
        /\ k = JsNum.toString (personId p) /\ wl = week_label (week m) /\ v = side_name team).
Proof.
  revert acc. induction ms as [| m ms IH]; simpl; intros acc H; [left; exact H |].
  apply IH in H as [H | (m' & team & p & Hm & Hrest)].
  - apply fold_match_sound in H as [H | (team & p & Hrest)]; [left; exact H |].
    right. exists m, team, p. split; [left; reflexivity | exact Hrest].
  - right. exists m', team, p. split; [right; assumption | exact Hrest].
Qed.

(** Keys of [usage] have a name in [players] that is not falsy. *)
Definition named (pl : gmap string string) (us : gmap string (gmap string string)) : Prop :=
  forall k, is_Some (us !! k) -> falsy (pl !! k) = false.

Lemma full_name_not_falsy (p : Player) :
  falsy (Some (firstName p ++ " " ++ lastName p)) = false.
Proof.
  destruct (firstName p); reflexivity.
Qed.

Lemma register_step_named (team : Side) (wk : Z) pl us (p : Player) :
  named pl us ->
  let '(pl', us') := register_player team wk (pl, us) p in
  named pl' us'
  /\ (forall k wl v, cell_of us k wl = Some v -> exists v', cell_of us' k wl = Some v')
  /\ cell_of us' (JsNum.toString (personId p)) (week_label wk) = Some (side_name team).
Proof.
  intros Hn. unfold register_player. set (pid := JsNum.toString (personId p)).
  destruct (falsy (pl !! pid)) eqn:Hf; cbv beta iota.
  - assert (Hnone : us !! pid = None).
    { destruct (us !! pid) eqn:E; [| reflexivity].
      rewrite Hn in Hf; [discriminate | eexists; exact E]. }
    split; [| split].
    + intros k Hk. rewrite lookup_insert. destruct (decide (pid = k)) as [<- | Hne].
      * apply full_name_not_falsy.
      * apply Hn. rewrite lookup_insert_ne, lookup_insert_ne in Hk by assumption. exact Hk.
    + intros k wl v H. unfold cell_of in *. destruct (decide (pid = k)) as [<- | Hne].
      * rewrite Hnone in H. discriminate.
      * rewrite lookup_insert_ne, lookup_insert_ne by assumption. exists v. exact H.
    + unfold cell_of. rewrite lookup_insert_eq. cbn. rewrite lookup_insert_eq. reflexivity.
  - split; [| split].
    + intros k Hk. destruct (decide (pid = k)) as [<- | Hne]; [exact Hf |].
      apply Hn. rewrite lookup_insert_ne in Hk by assumption. exact Hk.
    + intros k wl v H. unfold cell_of in *. destruct (decide (pid = k)) as [<- | Hne].
      * rewrite lookup_insert_eq. cbn. rewrite lookup_insert.
        destruct (decide (week_label wk = wl)); [eexists; reflexivity |].
        destruct (us !! pid); cbn in *; [exists v; exact H | discriminate].
      * rewrite lookup_insert_ne by assumption. exists v. exact H.
    + unfold cell_of. rewrite lookup_insert_eq. cbn. rewrite lookup_insert_eq. reflexivity.
Qed.

Lemma register_fold_named (team : Side) (wk : Z) (ps : list Player) pl us :
  named pl us ->
  let '(pl', us') := fold_left (register_player team wk) ps (pl, us) in
  named pl' us'
  /\ (forall k wl v, cell_of us k wl = Some v -> exists v', cell_of us' k wl = Some v')
  /\ (forall p, In p ps -> exists v, cell_of us' (JsNum.toString (personId p)) (week_label wk) = Some v).
Proof.
  revert pl us. induction ps as [| p ps IH]; cbn [fold_left]; intros pl us Hn.
  - split; [exact Hn |]. split; [intros k wl v H; exists v; exact H | intros p []].
  - pose proof (register_step_named team wk pl us p Hn) as Hs.
    destruct (register_player team wk (pl, us) p) as [pl1 us1].
    destruct Hs as (Hn1 & Hmono1 & Hnew).
    specialize (IH pl1 us1 Hn1).
    destruct (fold_left (register_player team wk) ps (pl1, us1)) as [pl2 us2].
    destruct IH as (Hn2 & Hmono2 & Hall). split; [exact Hn2 |]. split.
    + intros k wl v H. apply Hmono1 in H as [v1 H]. apply Hmono2 in H. exact H.
    + intros p' [<- | Hp']; [apply Hmono2 in Hnew; exact Hnew | apply Hall, Hp'].
Qed.

Lemma fold_match_named (sel : list Z) (acc : FoldAcc) (m : Match) :
  named (acc_players acc) (acc_usage acc) ->
  let acc' := fold_match sel acc m in
  named (acc_players acc') (acc_usage acc')
  /\ (forall k wl v, cell_of (acc_usage acc) k wl = Some v ->
        exists v', cell_of (acc_usage acc') k wl = Some v')
  /\ (forall w, In w (acc_weeks acc) -> In w (acc_weeks acc'))
  /\ (forall team, counted sel m team ->
        In (week m) (acc_weeks acc')
        /\ forall p, In p (players team) ->
             exists v, cell_of (acc_usage acc') (JsNum.toString (personId p)) (week_label (week m))
                       = Some v).
Proof.
  intros Hn acc'. unfold acc', fold_match.
  set (team := if has sel (side_id (homeTeam m)) then homeTeam m else awayTeam m).
  destruct (has sel (side_id team)) eqn:Hs; cbn [negb].
  - pose proof (register_fold_named team (week m) (players team) _ _ Hn) as Hf.
    destruct (fold_left (register_player team (week m)) (players team)
                (acc_players acc, acc_usage acc)) as [pl us].
    destruct Hf as (Hn' & Hmono & Hall). cbn. split; [exact Hn' |]. split; [exact Hmono |].
    split.
    + intros w Hw. unfold set_add. destruct (has (acc_weeks acc) (week m));
        [exact Hw | apply in_app_iff; left; exact Hw].
    + intros team' [-> _]. split; [| exact Hall].
      unfold set_add. destruct (has (acc_weeks acc) (week m)) eqn:E.
      * apply FoldFacts.set_has_In, E.
      * apply in_app_iff. right. left. reflexivity.
  - split; [exact Hn |]. split; [intros k wl v H; exists v; exact H |].
    split; [auto |]. intros team' [-> Hs']. unfold team in Hs. congruence.
Qed.

Lemma fold_matches_complete (sel : list Z) (ms : list Match) (acc : FoldAcc) :
  named (acc_players acc) (acc_usage acc) ->
  let acc' := fold_left (fold_match sel) ms acc in
  named (acc_players acc') (acc_usage acc')
  /\ forall m team p, In m ms -> counted sel m team -> In p (players team) ->
       In (week m) (acc_weeks acc')
       /\ exists v, cell_of (acc_usage acc') (JsNum.toString (personId p)) (week_label (week m))
                    = Some v.
Proof.
  revert acc. induction ms as [| m ms IH]; simpl; intros acc Hn.
  - split; [exact Hn | intros m team p []].
  - pose proof (fold_match_named sel acc m Hn) as (Hn1 & Hmono & Hweeks & Hnew).
    (* monotonicity of the remaining fold *)
    assert (Hrest : forall acc0, named (acc_players acc0) (acc_usage acc0) ->
              (forall k wl v, cell_of (acc_usage acc0) k wl = Some v ->
                 exists v', cell_of (acc_usage (fold_left (fold_match sel) ms acc0)) k wl = Some v')
              /\ (forall w, In w (acc_weeks acc0) ->
                    In w (acc_weeks (fold_left (fold_match sel) ms acc0)))).
    { clear. induction ms as [| m ms IH]; simpl; intros acc0 Hn0.
      - split; [intros k wl v H; exists v; exact H | auto].
      - pose proof (fold_match_named sel acc0 m Hn0) as (Hn1 & Hmono & Hweeks & _).
        destruct (IH _ Hn1) as [H1 H2]. split.
        + intros k wl v H. apply Hmono in H as [v1 H]. apply H1 in H. exact H.
        + intros w Hw. apply H2, Hweeks, Hw. }
    destruct (IH _ Hn1) as [Hn2 Hall]. split; [exact Hn2 |].
    intros m' team p [<- | Hm] Hc Hp; [| eapply Hall; eassumption].
    destruct (Hnew team Hc) as [Hw Hcell].
    destruct (Hrest _ Hn1) as [R1 R2]. split; [apply R2, Hw |].
    destruct (Hcell p Hp) as [v Hv]. apply R1 in Hv. exact Hv.
Qed.

End UsageFacts.

(* ------------------------------------------------------------------ *)
Module KeyFacts.
Import JsNum.
Local Open Scope string_scope.

Fixpoint no_dash (s : string) : bool :=
  match s with
  | EmptyString => true
  | String c r => negb (Ascii.eqb c "-"%char) && no_dash r
  end.

Lemma no_dash_app (a b : string) : no_dash (a ++ b) = no_dash a && no_dash b.
Proof. induction a as [| c a IH]; simpl; [reflexivity | rewrite IH, andb_assoc; reflexivity]. Qed.

(** Split at the first dash. *)
Lemma split_first_dash (a a' r r' : string) :
  no_dash a = true -> no_dash a' = true ->
  a ++ String "-" r = a' ++ String "-" r' -> a = a' /\ r = r'.
Proof.
  revert a'. induction a as [| c a IH]; intros [| c' a'] Ha Ha' H; simpl in *.
  - injection H as ->. split; reflexivity.
  - injection H as <- _. discriminate Ha'.
  - injection H as -> _. discriminate Ha.
  - injection H as <- H. apply andb_prop in Ha as [_ Ha]. apply andb_prop in Ha' as [_ Ha'].
    destruct (IH a' Ha Ha' H) as [-> ->]. split; reflexivity.
Qed.

(** Split at the last dash. *)
Lemma split_last_dash (a a' r r' : string) :
  no_dash r = true -> no_dash r' = true ->
  a ++ String "-" r = a' ++ String "-" r' -> a = a' /\ r = r'.
Proof.
  revert a'. induction a as [| c a IH]; intros [| c' a'] Hr Hr' H; simpl in *.
  - injection H as ->. split; reflexivity.
  - injection H as <- H. subst r. rewrite no_dash_app in Hr. simpl in Hr.
    rewrite andb_false_r in Hr. discriminate.
  - injection H as -> H. subst r'. rewrite no_dash_app in Hr'. simpl in Hr'.
    rewrite andb_false_r in Hr'. discriminate.
  - injection H as <- H. destruct (IH a' Hr Hr' H) as [-> ->]. split; reflexivity.
Qed.

Lemma uint_no_dash (u : Decimal.uint) : no_dash (uint_to_string u) = true.
Proof. induction u; simpl; assumption || reflexivity. Qed.

(** [toString n] is a run of digits, or a dash followed by a non-empty one. *)
Lemma toString_shape (n : Z) :
  (no_dash (toString n) = true /\ exists c r, toString n = String c r /\ c <> "-"%char)
  \/ exists u, toString n = String "-" (uint_to_string u) /\ u <> Decimal.Nil.
Proof.
  destruct (JsNumFacts.to_int_not_nil n) as [Hp Hn]. unfold toString.
  destruct (Z.to_int n) as [u | u].
  - left. split; [apply uint_no_dash |].
    destruct u; [contradiction | eexists _, _; split; [reflexivity | discriminate] ..].
  - right. exists u. split; [reflexivity | congruence].
Qed.

Lemma toString_dash_key (a b a' b' : Z) :
  toString a ++ "-" ++ toString b = toString a' ++ "-" ++ toString b' -> a = a' /\ b = b'.
Proof.
  intros H.
  assert (Hsplit : toString a = toString a' /\ toString b = toString b').
  { destruct (toString_shape a) as [[Ha (c & r & Ec & Hc)] | (u & Eu & Hu)];
    destruct (toString_shape a') as [[Ha' (c' & r' & Ec' & Hc')] | (u' & Eu' & Hu')].
    - apply split_first_dash; assumption.
    - rewrite Ec, Eu' in H. simpl in H. injection H as Hcc _. contradiction.
    - rewrite Eu, Ec' in H. simpl in H. injection H as Hcc _. symmetry in Hcc. contradiction.
    - rewrite Eu, Eu' in H |- *. simpl in H. injection H as H.
      destruct (split_first_dash _ _ _ _ (uint_no_dash u) (uint_no_dash u') H) as [-> ->].
      split; reflexivity. }
  destruct Hsplit as [Ha Hb]. split; apply JsNumFacts.toString_inj; assumption.
Qed.

Lemma seasonId_no_dash (y : Z) : 1917 <= y -> no_dash (Season.seasonIdForYear y) = true.
Proof.
  intros Hy. unfold Season.seasonIdForYear, toString.
  assert (H0 : 0 <= y - 1917) by lia.
  destruct (y - 1917) as [| p | p]; [reflexivity | apply uint_no_dash | lia].
Qed.

End KeyFacts.

(* ------------------------------------------------------------------ *)
Module HandlerFacts.
Import Db Types Sys Io Tracker.
Local Open Scope string_scope.

Lemma promise_all_ui {A} (ts : list (M A)) (u : UI) (w : World) :
  EffectFacts.ui_pure (run_all ts) ->
  exists r w', promise_all ts (u, w) = (r, (u, w')).
Proof.
  intros Hp. destruct (EffectFacts.run_all_ok ts (u, w)) as (rs & [u1 w1] & E).
  pose proof (Hp u w) as Hu. rewrite E in Hu. simpl in Hu. subst u1.
  exists (all_results rs), w1. apply EffectFacts.promise_all_eq, E.
Qed.

(** The [try] body of [handleFetchPlayerUsage] sets [playerUsage] when it
    succeeds and leaves the component state alone when it fails. *)
Lemma analysis_body_ui (token : string) (sel : list Z) (c : Z) (u : UI) (w : World) :
  let '(r, (u', _)) := analysis_body token sel c (u, w) in
  match r with
  | Ok _ => exists pu, u' = mkUI (loading_clubs u) (loading_teams u) (loading_usage u) (error u)
                              (clubQuery u) (seasonId u) (clubs u) (selectedClub u) (allTeams u)
                              (selectedTeamIds u) (competitionId u) (Some pu)
  | Err _ => u' = u
  end.
Proof.
  unfold analysis_body.
  destruct (promise_all_ui (map (matchListTask token c) sel) u w (EffectFacts.stageC_ui token c sel))
    as (r1 & w1 & E1).
  unfold mbind at 1, M_bind at 1. rewrite E1.
  destruct r1 as [ls | e]; [| reflexivity].
  destruct (Nat.eqb _ 0); [eexists; reflexivity |].
  match goal with |- context [promise_all (map (matchDetailTask token) ?ids)] =>
    destruct (promise_all_ui (map (matchDetailTask token) ids) u w1 (EffectFacts.stageD_ui token ids))
      as (r2 & w2 & E2);
    unfold mbind at 1, M_bind at 1; rewrite E2
  end.
  destruct r2 as [ms | e]; [eexists; reflexivity | reflexivity].
Qed.

Ltac search_err := split; [reflexivity |]; split; [reflexivity |];
  right; eexists; split; reflexivity.

Ltac search_fetch_case :=
  lazymatch goal with
  | |- context [net_clubs ?w ?q ?sid] =>
      destruct (net_clubs w q sid) as [e | ok status body] eqn:En; cbn; [search_err |];
      destruct ok; cbn; [| search_err];
      destruct body as [e | raw]; cbn; [search_err |];
      destruct (db_write_error _); cbn; [search_err |];
      split; [reflexivity |]; split; [reflexivity |];
      left; split; [reflexivity |]; right; exists status, raw;
      split; [reflexivity |]; split; [reflexivity |];
      cbn; rewrite ?String.eqb_refl; reflexivity
  end.

Ltac teams_err := split; [reflexivity |]; split; [reflexivity |];
  right; eexists; reflexivity.

Ltac teams_fetch_case :=
  lazymatch goal with
  | |- context [net_teams ?w ?i] =>
      destruct (net_teams w i) as [e | ok status body] eqn:En; cbn; [teams_err |];
      destruct ok; cbn; [| teams_err];
      destruct body as [e | ts]; cbn; [teams_err |];
      destruct (db_write_error _); cbn; [teams_err |];
      split; [reflexivity |]; split; [reflexivity |];
      left; split; [reflexivity |]; right; exists status;
      split; [first [exact En | reflexivity] |];
      cbn; rewrite ?Z.eqb_refl; reflexivity
  end.

End HandlerFacts.


Module Claims.
Import Db Clubs.

(** C1 (counterexample): on the input
    [[{value:1,label:"A"},{value:1,label:"B"},{value:0,label:"C"},{value:2,label:""}]]
    the parsed clubs are not [[{id:1,name:"A"}]]: [Map.set] overwrites, so
    the later label ["B"] is the one kept. *)
Lemma C1_first_label_counterexample :
  parseClubs spec_example <> [mkClub 1 "A"]
  /\ parseClubs spec_example = [mkClub 1 "B"].
Proof. split; [intros H; vm_compute in H; congruence | reflexivity]. Qed.

(** C1 (amended): the parsed club list has exactly one club per distinct id
    among the raw entries whose [value] is non-zero and whose [label] is
    neither empty nor white space only; no other id occurs; the name kept for
    an id is the label of the LAST such entry with that id; on the example
    input the result is [[{id:1,name:"B"}]]. *)
Theorem C1_parseClubs_dedup_last_label (rawData : list RawClubData) :
  NoDup (map id (parseClubs rawData))
  /\ (forall k, In k (map id (parseClubs rawData)) <->
                exists r, In r rawData /\ keep r = true /\ value r = k)
  /\ (forall c, In c (parseClubs rawData) ->
                option_map label (last_kept rawData (id c)) = Some (name c))
  /\ parseClubs spec_example = [mkClub 1 "B"].
Proof.
  pose proof (ClubFacts.collect_fold_In rawData [] ) as HF.
  assert (HF' : forall k c, In (k, c) (fold_left collect_step rawData []) <->
                            last_kept rawData k = Some c).
  { intros k c. apply (HF k None NoDup_nil_2). intros c0. split; [intros [] | discriminate]. }
  clear HF.
  assert (Hids : map id (parseClubs rawData) = map fst (fold_left collect_step rawData [])).
  { unfold parseClubs. rewrite map_map. apply map_ext_in. intros [k r] Hin. simpl.
    apply HF' in Hin. unfold last_kept in Hin.
    apply ClubFacts.last_step_fold_props in Hin as [? | (_ & _ & Hv)];
      [discriminate | exact Hv]. }
  split; [| split; [| split]].
  - rewrite Hids. apply ClubFacts.collect_fold_NoDup, NoDup_nil_2.
  - intros k. rewrite Hids, in_map_iff. split.
    + intros ([k' c] & <- & Hin). apply HF' in Hin.
      apply ClubFacts.last_step_fold_props in Hin as [? | (Hin & Hk & Hv)]; [discriminate |].
      exists c. simpl. split; [assumption |]. split; assumption.
    + intros Hex. destruct (ClubFacts.last_step_fold_some rawData k None Hex) as [c Hc].
      exists (k, c). split; [reflexivity |]. apply HF'. exact Hc.
  - intros c Hin. apply ClubFacts.parseClubs_In_fold in Hin as (r & Hin & ->).
    simpl. apply HF' in Hin. rewrite Hin. reflexivity.
  - reflexivity.
Qed.

(** C5: [isCacheValid] is true exactly for a present item younger than
    [3600000] ms ([now - timestamp < 3600000]); an item exactly
    [3600000] ms old is stale; a missing item ([null]) is never fresh. *)
Theorem C5_isCacheValid_iff {T} (now : Z) (e : option (CacheItem T)) :
  (isCacheValid now e = true <->
     exists it, e = Some it /\ now - timestamp it < 3600000)
  /\ (forall it : CacheItem T,
        isCacheValid now (Some (mkItem (key it) (data it) (now - 3600000))) = false)
  /\ isCacheValid now (@None (CacheItem T)) = false.
Proof.
  split; [| split; [| reflexivity]].
  - unfold isCacheValid, CACHE_DURATION_MS. destruct e as [it |]; simpl.
    + rewrite Z.ltb_lt. split; [intros H; exists it; split; [reflexivity | lia] |].
      intros (it' & E & H). inversion E; subst. lia.
    + split; [discriminate | intros (it & E & _); discriminate].
  - intros it. unfold isCacheValid, CACHE_DURATION_MS. simpl.
    apply Z.ltb_ge. lia.
Qed.

(** C6 (counterexample): the year [1e21] is a double, but [1e21 - 1917]
    rounds to [1e21], whose [toString] is ["1e+21"]; [parseInt] reads only
    the leading ["1"], so the round trip yields [1918], not [1e21]. *)
Lemma C6_season_roundtrip_counterexample :
  JsDouble.round (10 ^ 21) = 10 ^ 21
  /\ SeasonJs.seasonIdForYear (10 ^ 21) = "1e+21"%string
  /\ SeasonJs.yearForSeasonId (SeasonJs.seasonIdForYear (10 ^ 21)) = Some 1918
  /\ SeasonJs.yearForSeasonId (SeasonJs.seasonIdForYear (10 ^ 21)) <> Some (10 ^ 21).
Proof.
  split; [vm_compute; reflexivity |].
  split; [vm_compute; reflexivity |].
  split; [vm_compute; reflexivity |].
  vm_compute. congruence.
Qed.

(** C6 (amended): for every integer year [y] with [|y| + 1917 <= 2^53 - 1]
    (so [y], [y - 1917] and [y + 1917] are safe integers), the double
    computation agrees with the exact one: [seasonIdForYear(y)] is the plain
    decimal form of [y - 1917], and [yearForSeasonId(seasonIdForYear(y)) = y]. *)
Theorem C6_season_roundtrip_safe (y : Z) (Hy : Z.abs y + 1917 <= 2 ^ 53 - 1) :
  SeasonJs.seasonIdForYear y = Season.seasonIdForYear y
  /\ SeasonJs.yearForSeasonId (SeasonJs.seasonIdForYear y) = Some y.
Proof.
  assert (Hs : SeasonJs.seasonIdForYear y = Season.seasonIdForYear y).
  { unfold SeasonJs.seasonIdForYear, Season.seasonIdForYear.
    rewrite JsDoubleFacts.round_small by lia.
    apply JsDoubleFacts.toString_small. lia. }
  split; [exact Hs |].
  rewrite Hs. unfold SeasonJs.yearForSeasonId, Season.seasonIdForYear.
  rewrite JsDoubleFacts.parseInt_toString_small by lia. simpl.
  rewrite JsDoubleFacts.round_small by lia. f_equal. lia.
Qed.

Lemma C6_season_roundtrip_safe_witness :
  Z.abs 2024 + 1917 <= 2 ^ 53 - 1
  /\ (SeasonJs.seasonIdForYear 2024 = Season.seasonIdForYear 2024
      /\ SeasonJs.yearForSeasonId (SeasonJs.seasonIdForYear 2024) = Some 2024).
Proof. split; [lia | apply (C6_season_roundtrip_safe 2024); lia]. Defined.

(** C9: the [PlayerUsageData] built by the fold step has [weeks] of the
    form [`Uke ${n}`], sorted strictly ascending by the numeric week (so no
    duplicates, and ["Uke 9"] before ["Uke 10"]), and every key of [usage]
    is a key of [players]. *)
Theorem C9_usage_invariants (selectedTeamIds : list Z) (allMatchDetails : list Types.Match) :
  let pu := Tracker.build_usage selectedTeamIds allMatchDetails in
  (exists ns, Types.pu_weeks pu = map Tracker.week_label ns /\ StronglySorted Z.lt ns)
  /\ NoDup (Types.pu_weeks pu)
  /\ (forall k, is_Some (Types.pu_usage pu !! k) -> is_Some (Types.pu_players pu !! k)).
Proof.
  intros pu.
  assert (Hok : FoldFacts.acc_ok
                  (fold_left (Tracker.fold_match selectedTeamIds) allMatchDetails
                     (Tracker.mkAcc ∅ ∅ []))).
  { apply FoldFacts.fold_matches_inv. split; [intros k [x Hx]; discriminate | constructor]. }
  destruct Hok as [Hu Hw].
  assert (Hs : StronglySorted Z.lt
                 (merge_sort Z.le (Tracker.acc_weeks
                    (fold_left (Tracker.fold_match selectedTeamIds) allMatchDetails
                       (Tracker.mkAcc ∅ ∅ []))))).
  { apply FoldFacts.StronglySorted_le_lt.
    - apply StronglySorted_merge_sort; first [apply _ | intros ???; lia].
    - rewrite merge_sort_Permutation. exact Hw. }
  split; [| split].
  - eexists. split; [reflexivity | exact Hs].
  - apply FoldFacts.NoDup_map_inj; [apply FoldFacts.week_label_inj |].
    rewrite merge_sort_Permutation. exact Hw.
  - exact Hu.
Qed.

(** Weeks 10 then 9 come out as ["Uke 9"; "Uke 10"]. *)
Example build_usage_weeks_numeric :
  Types.pu_weeks (Tracker.build_usage [5]
    [Types.mkMatch 1 10 (Types.mkSide 5 "A" []) (Types.mkSide 6 "B" []);
     Types.mkMatch 2 9 (Types.mkSide 6 "B" []) (Types.mkSide 5 "A" [])])
  = ["Uke 9"; "Uke 10"].
Proof. vm_compute. reflexivity. Qed.

(** C10: in the fold step, a match whose home team is selected records the
    home side only (its week, its players, its team name), whatever the away
    side is, selected or not; otherwise a selected away side is recorded;
    a match with neither side selected leaves the fold state unchanged. *)
Theorem C10_home_side_first (selectedTeamIds : list Z) (acc : Tracker.FoldAcc)
  (m : Types.Match) :
  (Tracker.has selectedTeamIds (Types.side_id (Types.homeTeam m)) = true ->
     Tracker.fold_match selectedTeamIds acc m =
       (let '(pl, us) := fold_left (Tracker.register_player (Types.homeTeam m) (Types.week m))
                           (Types.players (Types.homeTeam m))
                           (Tracker.acc_players acc, Tracker.acc_usage acc) in
        Tracker.mkAcc pl us (Tracker.set_add (Tracker.acc_weeks acc) (Types.week m)))
     /\ forall away : Types.Side,
          Tracker.fold_match selectedTeamIds acc m =
          Tracker.fold_match selectedTeamIds acc
            (Types.mkMatch (Types.match_id m) (Types.week m) (Types.homeTeam m) away))
  /\ (Tracker.has selectedTeamIds (Types.side_id (Types.homeTeam m)) = false ->
      Tracker.has selectedTeamIds (Types.side_id (Types.awayTeam m)) = true ->
      Tracker.fold_match selectedTeamIds acc m =
       (let '(pl, us) := fold_left (Tracker.register_player (Types.awayTeam m) (Types.week m))
                           (Types.players (Types.awayTeam m))
                           (Tracker.acc_players acc, Tracker.acc_usage acc) in
        Tracker.mkAcc pl us (Tracker.set_add (Tracker.acc_weeks acc) (Types.week m))))
  /\ (Tracker.has selectedTeamIds (Types.side_id (Types.homeTeam m)) = false ->
      Tracker.has selectedTeamIds (Types.side_id (Types.awayTeam m)) = false ->
      Tracker.fold_match selectedTeamIds acc m = acc).
Proof.
  destruct m as [mid wk home away]. unfold Tracker.fold_match. simpl.
  destruct (Tracker.has selectedTeamIds (Types.side_id home)) eqn:Hh; simpl; rewrite ?Hh;
    destruct (Tracker.has selectedTeamIds (Types.side_id away)) eqn:Ha; simpl; rewrite ?Hh, ?Ha;
    repeat split; intros; try discriminate; reflexivity.
Qed.

(** C8: with no selected team or no competition, the handler only sets the
    validation error: no session refresh, no cache access, no network call
    (the environment is untouched) and every other field is unchanged. *)
Theorem C8_validation_no_effects (token : string) (ui : Sys.UI) (w : Sys.World) :
  (Sys.selectedTeamIds ui = [] \/ Sys.competitionId ui = None) ->
  Tracker.handleFetchPlayerUsage token (ui, w) =
    (Sys.Ok tt,
     (Sys.mkUI (Sys.loading_clubs ui) (Sys.loading_teams ui) (Sys.loading_usage ui)
        (Some Tracker.validation_message) (Sys.clubQuery ui) (Sys.seasonId ui)
        (Sys.clubs ui) (Sys.selectedClub ui) (Sys.allTeams ui) (Sys.selectedTeamIds ui)
        (Sys.competitionId ui) (Sys.playerUsage ui), w)).
Proof.
  intros Hsel.
  assert (Hv : Tracker.validate ui = None).
  { unfold Tracker.validate. destruct Hsel as [-> | ->]; [reflexivity |].
    destruct (Nat.eqb _ 0); reflexivity. }
  unfold Tracker.handleFetchPlayerUsage.
  rewrite (EffectFacts.bind_ok Sys.get_ui _ (ui, w) ui (ui, w) eq_refl), Hv.
  reflexivity.
Qed.

Lemma C8_validation_no_effects_witness :
  Tracker.handleFetchPlayerUsage "token" (Scenarios.ui_no_selection, Scenarios.world_with Scenarios.matches_team1)
  = (Sys.Ok tt,
     (Sys.mkUI false false false (Some Tracker.validation_message) "" "" []
        (Some (0%nat, mkClub 42 "Klubb")) [] [] None None,
      Scenarios.world_with Scenarios.matches_team1)).
Proof.
  apply (C8_validation_no_effects "token" Scenarios.ui_no_selection
           (Scenarios.world_with Scenarios.matches_team1)).
  left. reflexivity.
Defined.

(** C3: once validation passes, if any Stage C match-list task fails, or
    Stage C succeeds with a non-empty union and any Stage D match-detail task
    fails, the handler ends with [playerUsage = null] and [error] set to the
    message of a failed task. *)
Theorem C3_fanout_failure_aborts (token : string) (ui : Sys.UI) (w : Sys.World)
  (sel : list Z) (c : Z) :
  Tracker.validate ui = Some (sel, c) ->
  let s1 := snd (Tracker.usage_start (ui, w)) in
  let final := fst (snd (Tracker.handleFetchPlayerUsage token (ui, w))) in
  (forall rsC s2 m,
     Tracker.run_all (map (Tracker.matchListTask token c) sel) s1 = (Sys.Ok rsC, s2) ->
     In (Sys.Err m) rsC ->
     Sys.playerUsage final = None /\ exists m', Sys.error final = Some m' /\ In (Sys.Err m') rsC)
  /\ (forall rsC s2 lists rsD s3 m,
     Tracker.run_all (map (Tracker.matchListTask token c) sel) s1 = (Sys.Ok rsC, s2) ->
     Tracker.all_results rsC = Sys.Ok lists ->
     Tracker.set_of (map Types.stub_id (concat lists)) <> [] ->
     Tracker.run_all (map (Tracker.matchDetailTask token)
                        (Tracker.set_of (map Types.stub_id (concat lists)))) s2
       = (Sys.Ok rsD, s3) ->
     In (Sys.Err m) rsD ->
     Sys.playerUsage final = None /\ exists m', Sys.error final = Some m' /\ In (Sys.Err m') rsD).
Proof.
  intros Hv s1 final. unfold final. rewrite (EffectFacts.handle_valid token ui w sel c Hv).
  fold s1.
  assert (Hs1 : s1 = (fst s1, snd s1)) by (destruct s1; reflexivity).
  assert (Hpu1 : Sys.playerUsage (fst s1) = None) by reflexivity.
  split.
  - intros rsC s2 m Hrun Hin.
    destruct (EffectFacts.all_results_err rsC m Hin) as (m' & Hall & Hin').
    pose proof (EffectFacts.stageC_ui token c sel (fst s1) (snd s1)) as Hu.
    rewrite <- Hs1, Hrun in Hu. simpl in Hu.
    assert (Hbody : Tracker.analysis_body token sel c s1 = (Sys.Err m', s2)).
    { unfold Tracker.analysis_body. apply (EffectFacts.bind_err _ _ _ m' s2).
      rewrite (EffectFacts.promise_all_eq _ _ _ _ Hrun), Hall. reflexivity. }
    rewrite Hbody. destruct s2 as [u2 w2]. simpl in Hu. subst u2.
    split; [exact Hpu1 |]. exists m'. split; [reflexivity | exact Hin'].
  - intros rsC s2 lists rsD s3 m Hrun Hall Hne HrunD Hin.
    destruct (EffectFacts.all_results_err rsD m Hin) as (m' & HallD & Hin').
    pose proof (EffectFacts.stageC_ui token c sel (fst s1) (snd s1)) as Hu.
    rewrite <- Hs1, Hrun in Hu. simpl in Hu.
    pose proof (EffectFacts.stageD_ui token
                  (Tracker.set_of (map Types.stub_id (concat lists))) (fst s2) (snd s2)) as HuD.
    assert (Hs2 : s2 = (fst s2, snd s2)) by (destruct s2; reflexivity).
    rewrite <- Hs2, HrunD in HuD. simpl in HuD.
    assert (Hlen : Nat.eqb (length (Tracker.set_of (map Types.stub_id (concat lists)))) 0 = false).
    { destruct (Tracker.set_of _); [contradiction | reflexivity]. }
    assert (Hbody : Tracker.analysis_body token sel c s1 = (Sys.Err m', s3)).
    { unfold Tracker.analysis_body.
      rewrite (EffectFacts.bind_ok _ _ _ lists s2);
        [| rewrite (EffectFacts.promise_all_eq _ _ _ _ Hrun), Hall; reflexivity].
      cbv beta zeta. rewrite Hlen. apply (EffectFacts.bind_err _ _ _ m' s3).
      rewrite (EffectFacts.promise_all_eq _ _ _ _ HrunD), HallD. reflexivity. }
    rewrite Hbody. destruct s3 as [u3 w3]. simpl in HuD. subst u3.
    rewrite Hu. split; [exact Hpu1 |]. exists m'. split; [reflexivity | exact Hin'].
Qed.

Lemma C3_fanout_failure_aborts_witness :
  exists m,
    Sys.playerUsage (fst (snd (Tracker.handleFetchPlayerUsage "token"
       (Scenarios.ui_two_teams, Scenarios.world_with Scenarios.matches_team1)))) = None
    /\ Sys.error (fst (snd (Tracker.handleFetchPlayerUsage "token"
       (Scenarios.ui_two_teams, Scenarios.world_with Scenarios.matches_team1)))) = Some m.
Proof.
  destruct (C3_fanout_failure_aborts "token" Scenarios.ui_two_teams
              (Scenarios.world_with Scenarios.matches_team1) [1; 2] 7 eq_refl) as [H _].
  destruct (Tracker.run_all (map (Tracker.matchListTask "token" 7) [1; 2])
              (snd (Tracker.usage_start
                      (Scenarios.ui_two_teams, Scenarios.world_with Scenarios.matches_team1))))
    as [[rsC | e] s2] eqn:E; [| vm_compute in E; discriminate].
  destruct (H rsC s2 "Failed fetching matches for team 2" eq_refl) as [Hp (m & He & _)].
  - vm_compute in E. injection E as <- _. right. left. reflexivity.
  - exists m. split; assumption.
Defined.

(** C7: once validation passes, if Stage C succeeds and the union of its
    match ids is empty, [playerUsage] becomes [{players:{}, weeks:[], usage:{}}]
    and the environment (cache and log of operations) is exactly the one
    Stage C left: no Stage D fetch and no further cache access. *)
Theorem C7_empty_union_short_circuit (token : string) (ui : Sys.UI) (w : Sys.World)
  (sel : list Z) (c : Z) rsC s2 (lists : list (list Types.MatchStub)) :
  Tracker.validate ui = Some (sel, c) ->
  Tracker.run_all (map (Tracker.matchListTask token c) sel)
    (snd (Tracker.usage_start (ui, w))) = (Sys.Ok rsC, s2) ->
  Tracker.all_results rsC = Sys.Ok lists ->
  Tracker.set_of (map Types.stub_id (concat lists)) = [] ->
  Sys.playerUsage (fst (snd (Tracker.handleFetchPlayerUsage token (ui, w))))
    = Some (Types.mkUsage ∅ [] ∅)
  /\ snd (snd (Tracker.handleFetchPlayerUsage token (ui, w))) = snd s2.
Proof.
  intros Hv Hrun Hall Hempty.
  rewrite (EffectFacts.handle_valid token ui w sel c Hv).
  assert (Hbody : Tracker.analysis_body token sel c (snd (Tracker.usage_start (ui, w)))
                  = Sys.setPlayerUsage (Some Tracker.empty_usage) s2).
  { unfold Tracker.analysis_body.
    rewrite (EffectFacts.bind_ok _ _ _ lists s2);
      [| rewrite (EffectFacts.promise_all_eq _ _ _ _ Hrun), Hall; reflexivity].
    cbv beta zeta. rewrite Hempty. reflexivity. }
  rewrite Hbody. destruct s2 as [u2 w2]. split; reflexivity.
Qed.

Lemma C7_empty_union_short_circuit_witness :
  Sys.playerUsage (fst (snd (Tracker.handleFetchPlayerUsage "token"
     (Scenarios.ui_two_teams, Scenarios.world_with Scenarios.matches_none))))
    = Some (Types.mkUsage ∅ [] ∅).
Proof.
  destruct (Tracker.run_all (map (Tracker.matchListTask "token" 7) [1; 2])
              (snd (Tracker.usage_start
                      (Scenarios.ui_two_teams, Scenarios.world_with Scenarios.matches_none))))
    as [[rsC | e] s2] eqn:E; [| vm_compute in E; discriminate].
  apply (C7_empty_union_short_circuit "token" Scenarios.ui_two_teams
           (Scenarios.world_with Scenarios.matches_none) [1; 2] 7 rsC s2 [[]; []] eq_refl E).
  - vm_compute in E. injection E as <- _. reflexivity.
  - reflexivity.
Defined.

(** C10 at a match whose two sides are both selected: the away side does
    not matter. *)
Lemma C10_home_side_first_witness :
  Tracker.has [1; 2] 1 = true
  /\ Tracker.fold_match [1; 2] (Tracker.mkAcc ∅ ∅ [])
      (Types.mkMatch 100 10 (Types.mkSide 1 "Lag A" [Types.mkPlayer 11 "Ola" "Nordmann"])
                            (Types.mkSide 2 "Lag B" [Types.mkPlayer 12 "Kari" "Nordmann"]))
    = Tracker.fold_match [1; 2] (Tracker.mkAcc ∅ ∅ [])
      (Types.mkMatch 100 10 (Types.mkSide 1 "Lag A" [Types.mkPlayer 11 "Ola" "Nordmann"])
                            (Types.mkSide 9 "Lag X" [])).
Proof.
  split; [reflexivity |].
  exact (proj2 (proj1 (C10_home_side_first [1; 2] (Tracker.mkAcc ∅ ∅ [])
           (Types.mkMatch 100 10 (Types.mkSide 1 "Lag A" [Types.mkPlayer 11 "Ola" "Nordmann"])
                                 (Types.mkSide 2 "Lag B" [Types.mkPlayer 12 "Kari" "Nordmann"])))
           eq_refl) (Types.mkSide 9 "Lag X" [])).
Defined.

(** C4: for each cache-or-fetch path (club search, teams, match lists,
    match details), when the fetch fails (transport failure, a response that
    is not [ok], or a body that does not parse) the database is left as it
    was: no cache entry is written. *)
Theorem C4_failed_fetch_keeps_cache (token : string) (u : Sys.UI) (w : Sys.World)
  (c id : Z) (club : Club) :
  (Io.fetch_failed (Sys.net_matches w id c) = true ->
     Sys.db (snd (snd (Tracker.matchListTask token c id (u, w)))) = Sys.db w)
  /\ (Io.fetch_failed (Sys.net_match w id) = true ->
     Sys.db (snd (snd (Tracker.matchDetailTask token id (u, w)))) = Sys.db w)
  /\ (Io.fetch_failed (Sys.net_clubs w (Sys.clubQuery u) (Sys.seasonId u)) = true ->
     Sys.db (snd (snd (Tracker.searchForClubs (u, w)))) = Sys.db w)
  /\ (Io.fetch_failed (Sys.net_teams w (Clubs.id club)) = true ->
     Sys.db (snd (snd (Tracker.fetchTeams token club (u, w)))) = Sys.db w).
Proof.
  split; [| split; [| split]]; intros Hf.
  - apply EffectFacts.cacheOrFetch_db_failed; [reflexivity | exact Hf].
  - apply EffectFacts.cacheOrFetch_db_failed; [reflexivity | exact Hf].
  - unfold Tracker.searchForClubs, Sys.get_ui, Sys.onActivity, Sys.modify_world,
      Sys.setLoadingClubs, Sys.setError, Sys.modify_ui, Sys.attempt, Io.getFromDB,
      Io.dateNow, Io.fetch, Io.json, Io.setToDB, Sys.throw, Sys.setClubs.
    unfold mbind, Sys.M_bind, mret, Sys.M_ret. cbn.
    destruct (String.eqb (Sys.clubQuery u) ""); cbn; [reflexivity |].
    destruct (Sys.db_read_error w); cbn; [reflexivity |].
    destruct (Io.fresh_data _ _); cbn; [reflexivity |].
    destruct (Sys.net_clubs w _ _) as [e | ok status body]; cbn; [reflexivity |].
    destruct ok; cbn; [| reflexivity].
    destruct body; cbn; [reflexivity | discriminate].
  - unfold Tracker.fetchTeams, Sys.onActivity, Sys.modify_world,
      Sys.setLoadingTeams, Sys.setError, Sys.modify_ui, Sys.attempt, Io.getFromDB,
      Io.dateNow, Io.apiFetch, Io.fetch, Io.json, Io.setToDB, Sys.throw, Sys.setAllTeams.
    unfold mbind, Sys.M_bind, mret, Sys.M_ret. cbn.
    destruct (Sys.db_read_error w); cbn; [reflexivity |].
    destruct (Io.fresh_data _ _); cbn; [reflexivity |].
    destruct (Sys.net_teams w _) as [e | ok status body]; cbn; [reflexivity |].
    destruct ok; cbn; [| reflexivity].
    destruct body; cbn; [reflexivity | discriminate].
Qed.

Lemma C4_failed_fetch_keeps_cache_witness :
  Io.fetch_failed (Sys.net_matches (Scenarios.world_with Scenarios.matches_team1) 2 7) = true
  /\ Sys.db (snd (snd (Tracker.matchListTask "token" 7 2
                        (Scenarios.ui_two_teams, Scenarios.world_with Scenarios.matches_team1))))
     = Scenarios.empty_db.
Proof.
  split; [reflexivity |].
  apply (proj1 (C4_failed_fetch_keeps_cache "token" Scenarios.ui_two_teams
                  (Scenarios.world_with Scenarios.matches_team1) 7 2 (mkClub 42 "Klubb"))).
  reflexivity.
Defined.

(** C2 (counterexample): club 42 is selected and its team list is loaded;
    the user then selects club 43, whose team request fails. [allTeams] is
    not reset: it still holds club 42's team. *)
Lemma C2_allTeams_not_reset_counterexample :
  let u' := fst (snd (Tracker.selectClub "token" (1%nat, mkClub 43 "Annen")
                        (Scenarios.ui_club_loaded, Scenarios.world_with Scenarios.matches_none))) in
  Sys.allTeams u' <> [] /\ Sys.allTeams u' = [Scenarios.old_team].
Proof.
  assert (E : Sys.allTeams (fst (snd (Tracker.selectClub "token" (1%nat, mkClub 43 "Annen")
                (Scenarios.ui_club_loaded, Scenarios.world_with Scenarios.matches_none))))
              = [Scenarios.old_team]) by reflexivity.
  cbv zeta. rewrite E. split; [discriminate | reflexivity].
Qed.

(** C2 (amended): selecting a club that is not the currently selected object
    sets [selectedClub] to it and resets [selectedTeamIds] to the empty set,
    [competitionId] and [playerUsage] to null, the search results to the
    empty list and the search text to the empty string. [allTeams] is not
    reset by the selection: afterwards it is the previous list, or the fresh
    cached team list of the new club, or the list the teams endpoint
    returned for the new club. *)
Theorem C2_selectClub_resets (token : string) (r : nat) (club : Club)
  (u : Sys.UI) (w : Sys.World) :
  Tracker.same_club_ref (Sys.selectedClub u) (Some (r, club)) = false ->
  let u' := fst (snd (Tracker.selectClub token (r, club) (u, w))) in
  Sys.selectedClub u' = Some (r, club) /\ Sys.selectedTeamIds u' = []
  /\ Sys.competitionId u' = None /\ Sys.playerUsage u' = None
  /\ Sys.clubs u' = [] /\ Sys.clubQuery u' = ""
  /\ (Sys.allTeams u' = Sys.allTeams u
      \/ (exists it, Sys.store_get (Sys.teams (Sys.db w)) (KNum (id club)) = Some it
                     /\ isCacheValid (Sys.now w) (Some it) = true /\ Sys.allTeams u' = data it)
      \/ (exists status, Sys.net_teams w (id club)
                         = Sys.Response true status (inr (Sys.allTeams u')))).
Proof.
  intros Hne u'.
  set (u1 := fst (snd (Tracker.handleSelectClub (r, club) (u, w)))).
  assert (Hh : Tracker.handleSelectClub (r, club) (u, w) = (Sys.Ok tt, (u1, w))) by reflexivity.
  set (eff := if String.eqb (Sys.clubQuery u) (Sys.clubQuery u1) then mret tt
              else if Nat.ltb (String.length (Sys.clubQuery u1)) 3 then Sys.setClubs []
              else mret tt).
  assert (Heff : exists u2, eff (u1, w) = (Sys.Ok tt, (u2, w))
            /\ Sys.selectedClub u2 = Some (r, club) /\ Sys.selectedTeamIds u2 = []
            /\ Sys.playerUsage u2 = None /\ Sys.clubs u2 = [] /\ Sys.clubQuery u2 = ""
            /\ Sys.allTeams u2 = Sys.allTeams u).
  { unfold eff. destruct (String.eqb _ _); [eexists; split; [reflexivity | repeat split] |].
    destruct (Nat.ltb _ _); eexists; (split; [reflexivity | repeat split]). }
  destruct Heff as (u2 & Heff & H1 & H2 & H3 & H4 & H5 & H6).
  assert (Hsel : Tracker.selectClub token (r, club) (u, w)
                 = (Tracker.fetchTeams token club ≫= (fun _ => Sys.setCompetitionId None)) (u2, w)).
  { unfold Tracker.selectClub.
    rewrite (EffectFacts.bind_ok Sys.get_ui _ (u, w) u (u, w) eq_refl). cbv beta.
    rewrite (EffectFacts.bind_ok (Tracker.handleSelectClub (r, club)) _ _ tt (u1, w) Hh). cbv beta.
    rewrite (EffectFacts.bind_ok Sys.get_ui _ (u1, w) u1 (u1, w) eq_refl). cbv beta.
    fold eff. rewrite (EffectFacts.bind_ok eff _ _ tt (u2, w) Heff). cbv beta.
    change (Sys.selectedClub u1) with (Some (r, club)). rewrite Hne. reflexivity. }
  destruct (EffectFacts.fetchTeams_ok token club (u2, w)) as [[u3 w3] Hf].
  pose proof (EffectFacts.fetchTeams_fields token club u2 w) as F. cbv zeta in F.
  rewrite Hf in F. cbn [fst snd] in F.
  unfold u'. rewrite Hsel, (EffectFacts.bind_ok (Tracker.fetchTeams token club) _ _ tt (u3, w3) Hf). cbn [fst snd].
  destruct F as (F1 & F2 & F3 & F4 & F5 & F6 & F7).
  cbn. rewrite F1, F2, F4, F5, F6, H1, H2, H3, H4, H5. repeat split.
  rewrite H6 in F7. exact F7.
Qed.

Lemma C2_selectClub_resets_witness :
  Tracker.same_club_ref (Sys.selectedClub Scenarios.ui_club_loaded) (Some (1%nat, mkClub 43 "Annen"))
    = false
  /\ Sys.selectedTeamIds (fst (snd (Tracker.selectClub "token" (1%nat, mkClub 43 "Annen")
        (Scenarios.ui_club_loaded, Scenarios.world_with Scenarios.matches_none)))) = []
  /\ Sys.competitionId (fst (snd (Tracker.selectClub "token" (1%nat, mkClub 43 "Annen")
        (Scenarios.ui_club_loaded, Scenarios.world_with Scenarios.matches_none)))) = None.
Proof.
  split; [reflexivity |].
  exact (conj (proj1 (proj2 (C2_selectClub_resets "token" 1 (mkClub 43 "Annen")
                Scenarios.ui_club_loaded (Scenarios.world_with Scenarios.matches_none) eq_refl)))
              (proj1 (proj2 (proj2 (C2_selectClub_resets "token" 1 (mkClub 43 "Annen")
                Scenarios.ui_club_loaded (Scenarios.world_with Scenarios.matches_none) eq_refl))))).
Defined.

End Claims.

(* ------------------------------------------------------------------ *)
(** ** Further properties of the code *)

Module Extras.
Import Db Sys Io Types Tracker TrackerView HandlerFacts Scenarios.
Local Open Scope string_scope.

(** X1: [setToDB] then [getFromDB]: when IndexedDB accepts the write, a
    read of the key just written returns the item written, and a read of
    any other key returns what it returned before the write. *)
Theorem X1_setToDB_getFromDB {T} (st : Io.Store T) (it : CacheItem T) (u : UI) (w : World) :
  (forall l d, Io.store_of st (Io.with_store st l d) = l) ->
  db_read_error w = None -> db_write_error w = None ->
  fst (Io.setToDB st it (u, w)) = Ok tt
  /\ fst (Io.getFromDB st (key it) (snd (Io.setToDB st it (u, w)))) = Ok (Some it)
  /\ forall k, k <> key it ->
       fst (Io.getFromDB st k (snd (Io.setToDB st it (u, w)))) = fst (Io.getFromDB st k (u, w)).
Proof.
  intros Hlens Hr Hw. unfold Io.setToDB, Io.getFromDB. rewrite Hw. cbn. rewrite Hr.
  split; [reflexivity |]. split.
  - rewrite Hlens, StoreFacts.store_get_put_same. reflexivity.
  - intros k Hk. rewrite Hlens, StoreFacts.store_get_put_other by assumption. reflexivity.
Qed.

Lemma X1_setToDB_getFromDB_witness :
  (forall l d, Io.store_of Io.teamsStore (Io.with_store Io.teamsStore l d) = l)
  /\ fst (Io.getFromDB Io.teamsStore (KNum 42)
            (snd (Io.setToDB Io.teamsStore (mkItem (KNum 42) [Scenarios.old_team] 5)
                    (Scenarios.ui_club_loaded, Scenarios.world_with Scenarios.matches_none))))
     = Ok (Some (mkItem (KNum 42) [Scenarios.old_team] 5)).
Proof.
  split; [intros l d; reflexivity |].
  exact (proj1 (proj2 (X1_setToDB_getFromDB Io.teamsStore (mkItem (KNum 42) [Scenarios.old_team] 5)
           Scenarios.ui_club_loaded (Scenarios.world_with Scenarios.matches_none)
           (fun l d => eq_refl) eq_refl eq_refl))).
Defined.

(** X2: [handleTeamSelection(teamId)] flips the membership of [teamId] in
    [selectedTeamIds], leaves every other id's membership as it was, and
    keeps the set free of duplicates. *)
Theorem X2_handleTeamSelection_flips (x : Z) (u : UI) (w : World) :
  NoDup (selectedTeamIds u) ->
  let sel' := selectedTeamIds (fst (snd (handleTeamSelection x (u, w)))) in
  NoDup sel'
  /\ (In x sel' <-> ~ In x (selectedTeamIds u))
  /\ (forall y, y <> x -> In y sel' <-> In y (selectedTeamIds u)).
Proof.
  intros Hnd sel'. unfold sel'. rewrite ToggleFacts.handleTeamSelection_run.
  split; [apply ToggleFacts.toggle_NoDup, Hnd |]. split.
  - rewrite ToggleFacts.toggle_In. tauto.
  - intros y Hne. rewrite ToggleFacts.toggle_In. tauto.
Qed.

Lemma X2_handleTeamSelection_flips_witness :
  NoDup (selectedTeamIds Scenarios.ui_two_teams)
  /\ NoDup (selectedTeamIds (fst (snd (handleTeamSelection 2
              (Scenarios.ui_two_teams, Scenarios.world_with Scenarios.matches_none))))).
Proof.
  assert (H : NoDup (selectedTeamIds Scenarios.ui_two_teams)) by (vm_compute; repeat constructor; set_solver).
  split; [exact H |].
  exact (proj1 (X2_handleTeamSelection_flips 2 Scenarios.ui_two_teams
                  (Scenarios.world_with Scenarios.matches_none) H)).
Defined.

(** X3: clicking the same team checkbox twice restores the selection
    exactly when the team was not selected; a selected team that is
    deselected and selected again moves to the end of the set's order. *)
Theorem X3_handleTeamSelection_twice (x : Z) (u : UI) (w : World) :
  let sel2 := selectedTeamIds (fst (snd (handleTeamSelection x
                 (snd (handleTeamSelection x (u, w)))))) in
  (~ In x (selectedTeamIds u) -> sel2 = selectedTeamIds u)
  /\ (In x (selectedTeamIds u) -> sel2 = (set_delete (selectedTeamIds u) x ++ [x])%list).
Proof.
  intros sel2. unfold sel2.
  destruct (handleTeamSelection x (u, w)) as [r [u1 w1]] eqn:E1.
  assert (Hu1 : selectedTeamIds u1 = toggle (selectedTeamIds u) x).
  { rewrite <- ToggleFacts.handleTeamSelection_run with (w := w), E1. reflexivity. }
  cbn [snd]. rewrite ToggleFacts.handleTeamSelection_run, Hu1.
  unfold toggle. split; intros Hx.
  - destruct (Tracker.has (selectedTeamIds u) x) eqn:E;
      [apply FoldFacts.set_has_In in E; contradiction |].
    unfold Tracker.set_add. rewrite E.
    assert (Tracker.has (selectedTeamIds u ++ [x]) x = true)
      by (apply FoldFacts.set_has_In, in_app_iff; right; left; reflexivity).
    rewrite H. apply ToggleFacts.set_delete_app_last, Hx.
  - assert (E : Tracker.has (selectedTeamIds u) x = true) by (apply FoldFacts.set_has_In, Hx).
    rewrite E.
    assert (Hn : Tracker.has (set_delete (selectedTeamIds u) x) x = false).
    { destruct (Tracker.has (set_delete (selectedTeamIds u) x) x) eqn:E2; [| reflexivity].
      apply FoldFacts.set_has_In, ToggleFacts.set_delete_In in E2. tauto. }
    rewrite Hn. unfold Tracker.set_add. rewrite Hn. reflexivity.
Qed.

Lemma X3_handleTeamSelection_twice_witness :
  ~ In 5 (selectedTeamIds Scenarios.ui_two_teams)
  /\ selectedTeamIds (fst (snd (handleTeamSelection 5
        (snd (handleTeamSelection 5 (Scenarios.ui_two_teams, Scenarios.world_with Scenarios.matches_none))))))
     = selectedTeamIds Scenarios.ui_two_teams.
Proof.
  assert (H : ~ In 5 (selectedTeamIds Scenarios.ui_two_teams)) by (simpl; lia).
  split; [exact H |].
  exact (proj1 (X3_handleTeamSelection_twice 5 Scenarios.ui_two_teams
                  (Scenarios.world_with Scenarios.matches_none)) H).
Defined.


(** X4: the team filters.  A team is listed iff it is one of [allTeams]
    and passes each filter that is not empty; with both filters empty all
    teams are listed, in their order; and choosing any one genre option,
    or any one age option, lists at least one team. *)
Theorem X4_filteredTeams (allTeams : list Team) :
  (forall g a t, In t (filteredTeams allTeams g a) <->
     In t allTeams /\ (g = "" \/ genre t = g) /\ (a = "" \/ ageCategory t = a))
  /\ filteredTeams allTeams "" "" = allTeams
  /\ (forall g, In g (genreOptions allTeams) -> filteredTeams allTeams g "" <> [])
  /\ (forall a, In a (ageOptions allTeams) -> filteredTeams allTeams "" a <> []).
Proof.
  split; [apply OptionFacts.filteredTeams_In |]. split.
  - unfold filteredTeams. induction allTeams as [| t ts IH]; [reflexivity |].
    simpl. rewrite IH. reflexivity.
  - split.
    + intros g Hg. unfold genreOptions in Hg.
      rewrite (OptionFacts.In_Permutation _ _ _ (proj2 (OptionFacts.str_sort_props _))) in Hg.
      apply (proj2 (OptionFacts.genreSet_props allTeams)) in Hg as (t & Ht & Eg).
      intros E. assert (Hin : In t (filteredTeams allTeams g "")).
      { apply OptionFacts.filteredTeams_In. split; [assumption |]. split; [right | left]; congruence. }
      rewrite E in Hin. contradiction.
    + intros a Ha. unfold ageOptions in Ha.
      rewrite (OptionFacts.In_Permutation _ _ _ (proj2 (OptionFacts.str_sort_props _))) in Ha.
      apply (proj2 (OptionFacts.ageSet_props allTeams)) in Ha as (t & Ht & Ea).
      intros E. assert (Hin : In t (filteredTeams allTeams "" a)).
      { apply OptionFacts.filteredTeams_In. split; [assumption |]. split; [left | right]; congruence. }
      rewrite E in Hin. contradiction.
Qed.

Lemma X4_filteredTeams_witness :
  In "Herrer" (genreOptions [Scenarios.old_team])
  /\ filteredTeams [Scenarios.old_team] "Herrer" "" <> [].
Proof.
  assert (H : In "Herrer" (genreOptions [Scenarios.old_team])) by (vm_compute; left; reflexivity).
  split; [exact H |].
  exact (proj1 (proj2 (proj2 (X4_filteredTeams [Scenarios.old_team]))) "Herrer" H).
Defined.

(** X5: the genre and age options: each list is sorted by code units, has
    no duplicates, and holds exactly the genres (ages) of the teams. *)
Theorem X5_genre_age_options (allTeams : list Team) :
  NoDup (genreOptions allTeams) /\ StronglySorted str_le (genreOptions allTeams)
  /\ (forall g, In g (genreOptions allTeams) <-> exists t, In t allTeams /\ genre t = g)
  /\ NoDup (ageOptions allTeams) /\ StronglySorted str_le (ageOptions allTeams)
  /\ (forall a, In a (ageOptions allTeams) <-> exists t, In t allTeams /\ ageCategory t = a).
Proof.
  destruct (OptionFacts.genreSet_props allTeams) as [Gnd Gin].
  destruct (OptionFacts.ageSet_props allTeams) as [And Ain].
  unfold genreOptions, ageOptions.
  destruct (OptionFacts.str_sort_props (genreSet (team_options allTeams))) as [Gs Gp].
  destruct (OptionFacts.str_sort_props (ageSet (team_options allTeams))) as [As Ap].
  split; [rewrite Gp; exact Gnd |]. split; [exact Gs |].
  split; [intros g; rewrite (OptionFacts.In_Permutation _ _ _ Gp); apply Gin |].
  split; [rewrite Ap; exact And |]. split; [exact As |].
  intros a; rewrite (OptionFacts.In_Permutation _ _ _ Ap); apply Ain.
Qed.

(** X6: [competitionOptions] lists each competition id of the teams once,
    no other id, and under the name of the first competition with that id
    in the teams' order, whatever [localeCompare] is. *)
Theorem X6_competitionOptions (localeCompare : string -> string -> Z) (allTeams : list Team) :
  NoDup (map comp_id (competitionOptions localeCompare allTeams))
  /\ (forall i, In i (map comp_id (competitionOptions localeCompare allTeams)) <->
        exists t c, In t allTeams /\ In c (competitions t) /\ comp_id c = i)
  /\ (forall c, In c (competitionOptions localeCompare allTeams) <->
        option_map comp_name
          (List.find (fun c' => Z.eqb (comp_id c') (comp_id c)) (flat_map competitions allTeams))
        = Some (comp_name c)).
Proof.
  unfold competitionOptions, team_options. rewrite OptionFacts.team_options_fold. cbn [compMap].
  set (l := flat_map competitions allTeams).
  destruct (OptionFacts.comp_first_fold l [] NoDup_nil_2) as [Hnd Hin].
  set (m := fold_left comp_first l []) in *.
  pose proof (OptionFacts.sort_by_name_perm localeCompare (entries_to_competitions m)) as Hp.
  assert (Hids : map comp_id (sort_by_name localeCompare (entries_to_competitions m)) ≡ₚ map fst m).
  { rewrite <- OptionFacts.entries_ids. apply Permutation_map, Hp. }
  assert (Hpair : forall i n, In (i, n) m <->
            option_map comp_name (List.find (fun c => Z.eqb (comp_id c) i) l) = Some n).
  { intros i n. rewrite Hin. simpl. tauto. }
  split; [rewrite Hids; exact Hnd |]. split.
  - intros i. rewrite (OptionFacts.In_Permutation _ _ _ Hids), in_map_iff. split.
    + intros ([i' n] & <- & H). apply Hpair in H.
      destruct (List.find _ l) as [c |] eqn:Ef; [| discriminate].
      apply find_some in Ef as [Hc Ei]. apply Z.eqb_eq in Ei.
      apply in_flat_map in Hc as (t & Ht & Hc). exists t, c. split; [| split]; assumption.
    + intros (t & c & Ht & Hc & Ei).
      destruct (List.find (fun c => Z.eqb (comp_id c) i) l) as [c' |] eqn:Ef.
      * exists (i, comp_name c'). split; [reflexivity |]. apply Hpair. rewrite Ef. reflexivity.
      * exfalso. eapply find_none in Ef; [| apply in_flat_map; exists t; split; eassumption].
        rewrite Ei, Z.eqb_refl in Ef. discriminate.
  - intros c. rewrite (OptionFacts.In_Permutation _ _ _ Hp), OptionFacts.entries_In. apply Hpair.
Qed.

(** X7: [selectedTeamsCompetitions]: with no team selected it is
    [competitionOptions]; otherwise it lists each id of a competition of
    ANY selected team (the union over the selected teams, not the
    competitions they share) exactly once and no other id, each under a
    name such a competition has. *)
Theorem X7_selectedTeamsCompetitions (localeCompare : string -> string -> Z)
  (sel : list Z) (allTeams : list Team) :
  (sel = [] -> selectedTeamsCompetitions localeCompare sel allTeams
               = competitionOptions localeCompare allTeams)
  /\ (sel <> [] ->
      let R := selectedTeamsCompetitions localeCompare sel allTeams in
      NoDup (map comp_id R)
      /\ (forall i, In i (map comp_id R) <->
            exists t c, In t allTeams /\ In (team_id t) sel /\ In c (competitions t) /\ comp_id c = i)
      /\ (forall c, In c R ->
            exists t c', In t allTeams /\ In (team_id t) sel /\ In c' (competitions t)
                         /\ comp_id c' = comp_id c /\ comp_name c' = comp_name c)).
Proof.
  split; [intros ->; reflexivity |].
  intros Hne R. unfold R, selectedTeamsCompetitions.
  destruct (Nat.eqb_spec (length sel) 0) as [E | _];
    [destruct sel; [contradiction | discriminate] |].
  set (l := flat_map competitions (List.filter (fun t => Tracker.has sel (team_id t)) allTeams)).
  destruct (OptionFacts.set_fold_props l [] NoDup_nil_2) as (Hnd & Hkeys & Hpairs).
  set (m := fold_left (fun m c => Clubs.map_set m (comp_id c) (comp_name c)) l []) in *.
  pose proof (OptionFacts.sort_by_name_perm localeCompare (entries_to_competitions m)) as Hp.
  assert (Hids : map comp_id (sort_by_name localeCompare (entries_to_competitions m)) ≡ₚ map fst m).
  { rewrite <- OptionFacts.entries_ids. apply Permutation_map, Hp. }
  assert (Hl : forall c, In c l <-> exists t, In t allTeams /\ In (team_id t) sel /\ In c (competitions t)).
  { intros c. unfold l. rewrite in_flat_map. setoid_rewrite filter_In.
    setoid_rewrite FoldFacts.set_has_In. firstorder. }
  split; [rewrite Hids; exact Hnd |]. split.
  - intros i. rewrite (OptionFacts.In_Permutation _ _ _ Hids), Hkeys. simpl. split.
    + intros [[] | (c & Hc & Ei)]. apply Hl in Hc as (t & Ht & Hs & Hc).
      exists t, c. repeat split; assumption.
    + intros (t & c & Ht & Hs & Hc & Ei). right. exists c. split; [apply Hl; exists t; tauto | assumption].
  - intros c Hc. rewrite (OptionFacts.In_Permutation _ _ _ Hp), OptionFacts.entries_In in Hc.
    apply Hpairs in Hc as [[] | (c' & Hc' & Ei & En)].
    apply Hl in Hc' as (t & Ht & Hs & Hc'). exists t, c'. repeat split; assumption.
Qed.

Lemma X7_selectedTeamsCompetitions_witness :
  [1] <> []
  /\ NoDup (map comp_id (selectedTeamsCompetitions lc_witness [1]
              [mkTeam 1 "A" 42 "K" [mkCompetition 7 "Serie"] "Senior" "Herrer"])).
Proof.
  assert (H : [1] <> []) by discriminate.
  split; [exact H |].
  exact (proj1 (proj2 (X7_selectedTeamsCompetitions lc_witness [1]
           [mkTeam 1 "A" 42 "K" [mkCompetition 7 "Serie"] "Senior" "Herrer"]) H)).
Defined.

(** X8: every player of a counted side shows up in the usage table.  For
    each match of [allMatchDetails] whose chosen side (home if selected,
    else away) is a selected team, and each player of that side, the week
    label of the match is a column, the player has a row with a non-empty
    name, and the player's cell in that week is filled. *)
Theorem X8_usage_complete (sel : list Z) (ms : list Match) (m : Match) (p : Player) :
  In m ms ->
  has sel (side_id (if has sel (side_id (homeTeam m)) then homeTeam m else awayTeam m)) = true ->
  In p (players (if has sel (side_id (homeTeam m)) then homeTeam m else awayTeam m)) ->
  In (week_label (week m)) (pu_weeks (build_usage sel ms))
  /\ (exists name, pu_players (build_usage sel ms) !! JsNum.toString (personId p) = Some name
                   /\ name <> "")
  /\ (exists v, pu_usage (build_usage sel ms) !! JsNum.toString (personId p)
                  ≫= lookup (week_label (week m)) = Some v).
Proof.
  intros Hm Hs Hp.
  assert (Hn0 : UsageFacts.named ∅ ∅).
  { intros k Hk. rewrite lookup_empty in Hk. destruct Hk as [? Hk]. discriminate. }
  pose proof (UsageFacts.fold_matches_complete sel ms (mkAcc ∅ ∅ []) Hn0)
    as [Hn Hall].
  destruct (Hall m _ p Hm (conj eq_refl Hs) Hp) as [Hw [v Hv]].
  unfold build_usage. cbn [pu_weeks pu_players pu_usage]. split; [| split].
  - apply in_map. apply (Permutation_in _ (Permutation_sym (merge_sort_Permutation _ _))), Hw.
  - assert (Hk : is_Some (acc_usage (fold_left (fold_match sel) ms
                                               (mkAcc ∅ ∅ []))
                           !! JsNum.toString (personId p))).
    { unfold UsageFacts.cell_of in Hv.
      destruct (_ !! JsNum.toString (personId p)); [eexists; reflexivity | discriminate]. }
    apply Hn in Hk. destruct (_ !! JsNum.toString (personId p)) as [name |]; [| discriminate].
    exists name. split; [reflexivity |]. intros ->. discriminate.
  - exists v. exact Hv.
Qed.

(** X9: every filled cell of the usage table is backed by a match.  If the
    cell of player [playerId] in week [wl] shows anything other than the
    dash, then some match of [allMatchDetails] has its chosen side among the
    selected teams, that side has a player whose [personId] prints as
    [playerId], the match's week label is [wl], and the cell shows the
    side's name. *)
Theorem X9_usage_sound (sel : list Z) (ms : list Match) (playerId wl : string) :
  usage_cell (build_usage sel ms) playerId wl <> dash ->
  exists m team p, In m ms
    /\ team = (if has sel (side_id (homeTeam m)) then homeTeam m else awayTeam m)
    /\ has sel (side_id team) = true
    /\ In p (players team)
    /\ playerId = JsNum.toString (personId p)
    /\ wl = week_label (week m)
    /\ usage_cell (build_usage sel ms) playerId wl = side_name team.
Proof.
  unfold usage_cell.
  destruct (pu_usage (build_usage sel ms) !! playerId ≫= lookup wl) as [v |] eqn:Hv;
    [| intros H; exfalso; apply H; reflexivity].
  destruct (String.eqb v "") eqn:Ev; [intros H; exfalso; apply H; reflexivity |]. intros _.
  unfold build_usage in Hv. cbn [pu_usage] in Hv.
  apply UsageFacts.fold_matches_sound in Hv as [Hv | (m & team & p & Hm & [Ht Hs] & Hp & Hk & Hw & Hn)].
  - unfold UsageFacts.cell_of in Hv. cbn [acc_usage] in Hv. rewrite lookup_empty in Hv. discriminate.
  - exists m, team, p. repeat (split; [assumption |]). exact Hn.
Qed.

Lemma X8_usage_complete_witness :
  In usage_match [usage_match]
  /\ Tracker.has [1] 1 = true
  /\ In usage_player [usage_player]
  /\ In (week_label 9) (pu_weeks (build_usage [1] [usage_match])).
Proof.
  split; [left; reflexivity |]. split; [reflexivity |]. split; [left; reflexivity |].
  exact (proj1 (X8_usage_complete [1] [usage_match] usage_match usage_player
                  (or_introl eq_refl) eq_refl (or_introl eq_refl))).
Defined.

Lemma X9_usage_sound_witness :
  usage_cell (build_usage [1] [usage_match]) "7" "Uke 9" <> dash
  /\ exists m, In m [usage_match] /\ week_label (week m) = "Uke 9".
Proof.
  assert (H : usage_cell (build_usage [1] [usage_match]) "7" "Uke 9" <> dash)
    by (vm_compute; discriminate).
  split; [exact H |].
  destruct (X9_usage_sound [1] [usage_match] "7" "Uke 9" H)
    as (m & team & p & Hm & _ & _ & _ & _ & Hw & _).
  exists m. split; [exact Hm | symmetry; exact Hw].
Defined.

(** X10: the Stage C cache key [`${id}-${competitionId}`] of [matchListTask]
    determines the pair: two pairs get the same key iff they are equal, so
    different teams or competitions never share a match-list cache entry. *)
Theorem X10_matchList_key_inj (id c id' c' : Z) :
  JsNum.toString id ++ "-" ++ JsNum.toString c = JsNum.toString id' ++ "-" ++ JsNum.toString c'
  <-> id = id' /\ c = c'.
Proof.
  split; [apply KeyFacts.toString_dash_key | intros [-> ->]; reflexivity].
Qed.

(** X11: the club search cache key [`${clubQuery}-${seasonId}`] of
    [searchForClubs] determines the query and the season year, for seasons
    from 1917 on (whose [seasonIdForYear] has no minus sign). *)
Theorem X11_clubSearch_key_inj (q q' : string) (y y' : Z) :
  1917 <= y -> 1917 <= y' ->
  q ++ "-" ++ Season.seasonIdForYear y = q' ++ "-" ++ Season.seasonIdForYear y'
  <-> q = q' /\ y = y'.
Proof.
  intros Hy Hy'. split; [| intros [-> ->]; reflexivity].
  intros H. destruct (KeyFacts.split_last_dash _ _ _ _ (KeyFacts.seasonId_no_dash y Hy)
                        (KeyFacts.seasonId_no_dash y' Hy') H) as [Hq Hs].
  split; [exact Hq |]. apply JsNumFacts.toString_inj in Hs. lia.
Qed.

(** X12: the season [<select>] offers five distinct season ids, the first
    of which is [initialSeasonId]; [yearForSeasonId] maps them back to the
    years [currentYear], [currentYear - 1], ..., [currentYear - 4]. *)
Theorem X12_seasonOptions (cy : Z) :
  map Season.yearForSeasonId (Season.seasonOptions cy) = map Some (Season.years cy)
  /\ Season.years cy = [cy; cy - 1; cy - 2; cy - 3; cy - 4]
  /\ NoDup (Season.seasonOptions cy)
  /\ hd_error (Season.seasonOptions cy) = Some (Season.initialSeasonId cy).
Proof.
  assert (Hrt : forall y, Season.yearForSeasonId (Season.seasonIdForYear y) = Some y).
  { intros y. unfold Season.yearForSeasonId, Season.seasonIdForYear.
    rewrite JsNumFacts.parseInt_toString. simpl. f_equal. lia. }
  assert (Hy : Season.years cy = [cy; cy - 1; cy - 2; cy - 3; cy - 4]).
  { unfold Season.years. simpl. rewrite Z.sub_0_r. reflexivity. }
  assert (Hm : map Season.yearForSeasonId (Season.seasonOptions cy) = map Some (Season.years cy)).
  { unfold Season.seasonOptions. rewrite map_map.
    apply map_ext. exact Hrt. }
  split; [exact Hm |]. split; [exact Hy |]. split.
  - apply NoDup_ListNoDup, (List.NoDup_map_inv Season.yearForSeasonId). rewrite Hm, Hy.
    repeat constructor; simpl; intros H; repeat destruct H as [H | H]; try injection H; lia.
  - unfold Season.seasonOptions. rewrite Hy. reflexivity.
Qed.

Lemma X11_clubSearch_key_inj_witness :
  1917 <= 2024 /\ 1917 <= 2023
  /\ ("Ski IL" ++ "-" ++ Season.seasonIdForYear 2024 = "Ski IL" ++ "-" ++ Season.seasonIdForYear 2023
      <-> "Ski IL" = "Ski IL" /\ 2024 = 2023).
Proof.
  split; [lia |]. split; [lia |].
  apply X11_clubSearch_key_inj; lia.
Defined.

(** X13: logging in from the login form.  From a logged-out state, a
    submit followed by the login callback at time [t] with a non-empty
    username and password stores ["dummy-token-" ++ t] as both the token
    and the ["authToken"] entry, clears the error and the loading flag and
    arms the session timeout for [t + SESSION_DURATION_MS]; with an empty
    username or password it sets the error, clears the loading flag and
    leaves the token, the stored entry and the timeout as they were. *)
Theorem X13_login (st : App.AppState) (t0 t : Z) (u p : string) :
  App.truthy (App.token st) = false ->
  let st' := App.run st [(t0, App.SubmitLogin); (t, App.LoginCallback u p)] in
  App.loading st' = false
  /\ (u <> "" -> p <> "" ->
        App.token st' = Some ("dummy-token-" ++ JsNum.toString t)
        /\ App.authToken st' = Some ("dummy-token-" ++ JsNum.toString t)
        /\ App.error st' = None
        /\ App.sessionTimer st' = Some (t + App.SESSION_DURATION_MS))
  /\ (u = "" \/ p = "" ->
        App.token st' = App.token st
        /\ App.authToken st' = App.authToken st
        /\ App.error st' = Some App.login_error
        /\ App.sessionTimer st' = App.sessionTimer st).
Proof.
  intros Hf. cbn [App.run App.step]. rewrite Hf.
  unfold App.login_callback. cbn [App.token App.loading App.error App.authToken App.sessionTimer].
  split; [| split].
  - destruct (negb (String.eqb u "") && negb (String.eqb p "")); unfold App.commit;
      destruct (option_eq_dec _ _); unfold App.token_effect, App.clear_timer;
      cbn; try reflexivity; destruct (App.truthy _); reflexivity.
  - intros Hu Hp. apply String.eqb_neq in Hu, Hp. rewrite Hu, Hp. cbn [negb andb].
    unfold App.commit. destruct (option_eq_dec _ _) as [E | _].
    + cbn in E. rewrite E in Hf. discriminate Hf.
    + unfold App.token_effect, App.clear_timer. cbn. repeat split.
  - intros Hup. replace (negb (String.eqb u "") && negb (String.eqb p "")) with false
      by (destruct Hup as [-> | ->]; [reflexivity | destruct (String.eqb u ""); reflexivity]).
    unfold App.commit. destruct (option_eq_dec _ _) as [_ | n]; [repeat split |].
    exfalso. apply n. reflexivity.
Qed.

(** X14: in every state reachable from the first render, whatever the
    stored ["authToken"] and the events, the stored entry equals [token],
    and a session timeout is pending exactly when [token] is truthy (the
    user is logged in). *)
Theorem X14_session_invariant (stored : option string) (t : Z) (evs : list (Z * App.Event)) :
  let st := App.run (App.mount stored t) evs in
  App.authToken st = App.token st
  /\ (App.truthy (App.token st) = true <-> App.sessionTimer st <> None).
Proof.
  set (inv := fun st : App.AppState =>
         App.authToken st = App.token st
         /\ (App.truthy (App.token st) = true <-> App.sessionTimer st <> None)).
  assert (Heff : forall t st, App.authToken st = App.token st -> inv (App.token_effect t st)).
  { intros t' st0 H. unfold inv, App.token_effect, App.clear_timer.
    simpl. destruct (App.truthy (App.token st0)) eqn:E; simpl; rewrite ?E;
      (split; [exact H |]); split; intros H0; try discriminate;
      try reflexivity; exfalso; apply H0; reflexivity. }
  assert (Hcommit : forall t old new, inv old -> App.authToken new = App.token new ->
            (App.token new = App.token old -> App.sessionTimer new = App.sessionTimer old) ->
            inv (App.commit t old new)).
  { intros t' old new Hold Hn Hsame. unfold App.commit.
    destruct (option_eq_dec _ _) as [E | _]; [| apply Heff, Hn].
    split; [exact Hn |]. rewrite Hsame by (symmetry; exact E). rewrite <- E. apply Hold. }
  assert (Hstep : forall t e st, inv st -> inv (App.step t e st)).
  { intros t' e st0 [Ha Ht]. destruct e; cbn [App.step].
    - case_eq (App.truthy (App.token st0)); intros _; [split; assumption |].
      split; [exact Ha | exact Ht].
    - apply Hcommit; [split; assumption | |].
      + unfold App.login_callback.
        destruct (negb _ && negb _); cbn; [reflexivity | exact Ha].
      + unfold App.login_callback.
        destruct (negb _ && negb _); cbn; reflexivity.
    - case_eq (App.truthy (App.token st0)); intros E; [| split; assumption].
      unfold App.resetSessionTimeout. split; cbn; [exact Ha |]. rewrite E. split; congruence.
    - case_eq (App.truthy (App.token st0)); intros E; [| split; assumption].
      apply Hcommit; [split; assumption | reflexivity |].
      cbn. intros E'. rewrite <- E' in E. discriminate E.
    - apply Hcommit; [split; assumption | |].
      + unfold App.session_fires. destruct (App.sessionTimer st0); [| exact Ha].
        destruct (Z.leb _ _); [reflexivity | exact Ha].
      + unfold App.session_fires. destruct (App.sessionTimer st0) as [d |] eqn:Ed; [| intros _; congruence].
        destruct (Z.leb _ _); [| intros _; congruence]. cbn. intros E'.
        assert (Hs : Some d <> None) by discriminate.
        apply Ht in Hs. rewrite <- E' in Hs. discriminate Hs. }
  intros st. unfold st. clear st.
  assert (Hrun : forall evs st, inv st -> inv (App.run st evs)).
  { induction evs0 as [| [t' e] r IH]; intros st0 H; [exact H |]. apply IH, Hstep, H. }
  apply Hrun. unfold App.mount. apply Heff. reflexivity.
Qed.

(** X15: the inactivity timeout.  Once the logged-in user is active at
    time [t], the timeout does nothing before [t + SESSION_DURATION_MS]; at
    or after that time it logs the user out (token and stored entry
    removed, no timeout pending) and shows the expiry alert. *)
Theorem X15_session_timeout (st : App.AppState) (t t' : Z) :
  App.truthy (App.token st) = true ->
  let st1 := App.step t App.Activity st in
  (t' < t + App.SESSION_DURATION_MS -> App.step t' App.Tick st1 = st1)
  /\ (t + App.SESSION_DURATION_MS <= t' ->
        App.token (App.step t' App.Tick st1) = None
        /\ App.authToken (App.step t' App.Tick st1) = None
        /\ App.sessionTimer (App.step t' App.Tick st1) = None
        /\ App.alerts (App.step t' App.Tick st1) = (App.alerts st ++ [App.expiry_alert])%list).
Proof.
  intros Ht st1. unfold st1. cbn [App.step]. rewrite Ht.
  unfold App.session_fires, App.resetSessionTimeout. cbn [App.sessionTimer].
  split.
  - intros Hlt. replace (Z.leb (t + App.SESSION_DURATION_MS) t') with false
      by (symmetry; apply Z.leb_gt; exact Hlt).
    unfold App.commit. destruct (option_eq_dec _ _) as [_ | n]; [reflexivity |].
    exfalso. apply n. reflexivity.
  - intros Hle. replace (Z.leb (t + App.SESSION_DURATION_MS) t') with true
      by (symmetry; apply Z.leb_le; exact Hle).
    unfold App.commit. cbn. destruct (option_eq_dec _ _) as [E | _].
    + rewrite E in Ht. discriminate Ht.
    + unfold App.token_effect, App.clear_timer. cbn. repeat split.
Qed.

Lemma X13_login_witness :
  App.truthy (App.token app_logged_out) = false
  /\ App.token (App.run app_logged_out [(0, App.SubmitLogin); (500, App.LoginCallback "ola" "hemmelig")])
     = Some ("dummy-token-" ++ JsNum.toString 500).
Proof.
  assert (H : App.truthy (App.token app_logged_out) = false) by reflexivity.
  split; [exact H |].
  exact (proj1 (proj1 (proj2 (X13_login app_logged_out 0 500 "ola" "hemmelig" H))
                  ltac:(discriminate) ltac:(discriminate))).
Defined.

Lemma X15_session_timeout_witness :
  App.truthy (App.token app_logged_in) = true
  /\ App.step 1000 App.Tick (App.step 1 App.Activity app_logged_in)
     = App.step 1 App.Activity app_logged_in.
Proof.
  assert (H : App.truthy (App.token app_logged_in) = true) by reflexivity.
  split; [exact H |].
  apply (proj1 (X15_session_timeout app_logged_in 1 1000 H)). reflexivity.
Defined.

(** X16: [searchForClubs] with an empty [clubQuery] does nothing: no
    activity is reported, no cache or network operation is issued, and the
    component state and the environment are left as they are. *)
Theorem X16_searchForClubs_empty_query (u : UI) (w : World) :
  clubQuery u = "" -> searchForClubs (u, w) = (Ok tt, (u, w)).
Proof.
  intros Hq. unfold searchForClubs.
  rewrite (EffectFacts.bind_ok get_ui _ (u, w) u (u, w) eq_refl). rewrite Hq. reflexivity.
Qed.


(** X17: [searchForClubs] with a non-empty query always completes and ends
    with [loadingClubs] false; it changes no state but [clubs], [error] and
    the loading flag.  Either no error is shown and [clubs] is the fresh
    cached list for the key [`${clubQuery}-${seasonId}`] or the parsed
    response of the search endpoint (which is then cached under that key
    with the current time), or an error is shown and [clubs] is empty. *)
Theorem X17_searchForClubs_outcome (u : UI) (w : World) :
  clubQuery u <> "" ->
  let k := KStr (clubQuery u ++ "-" ++ seasonId u) in
  let '(r, (u', w')) := searchForClubs (u, w) in
  r = Ok tt
  /\ u' = mkUI false (loading_teams u) (loading_usage u) (error u') (clubQuery u) (seasonId u)
            (clubs u') (selectedClub u) (allTeams u) (selectedTeamIds u) (competitionId u)
            (playerUsage u)
  /\ ((error u' = None
       /\ ((exists it, store_get (club_search (db w)) k = Some it
                       /\ isCacheValid (now w) (Some it) = true /\ clubs u' = data it)
           \/ (exists status raw,
                 net_clubs w (clubQuery u) (seasonId u) = Response true status (inr raw)
                 /\ clubs u' = Clubs.parseClubs raw
                 /\ store_get (club_search (db w')) k = Some (mkItem k (clubs u') (now w)))))
      \/ (exists e, error u' = Some e /\ clubs u' = [])).
Proof.
  intros Hq k. apply String.eqb_neq in Hq.
  unfold searchForClubs, onActivity, modify_world, setLoadingClubs, setError, modify_ui, attempt,
    getFromDB, dateNow, fetch, json, setToDB, throw, setClubs, get_ui.
  unfold mbind, M_bind, mret, M_ret. cbn. rewrite Hq. cbn.
  destruct (db_read_error w); cbn.
  { split; [reflexivity |]. split; [reflexivity |]. right. eexists. split; reflexivity. }
  change (find _ (club_search (db w))) with (store_get (club_search (db w)) k).
  destruct (store_get (club_search (db w)) k) as [it |] eqn:Eg; cbn.
  - destruct (Z.ltb (now w - timestamp it) CACHE_DURATION_MS) eqn:Ev; cbn.
    { split; [reflexivity |]. split; [reflexivity |]. left. split; [reflexivity |].
      left. exists it. split; [reflexivity |]. split; [exact Ev | reflexivity]. }
    all: search_fetch_case.
  - search_fetch_case.
Qed.

(** X18: [fetchTeams] always completes and ends with [loadingTeams] false;
    it changes no state but [allTeams], [error] and the loading flag.
    Either no error is shown and [allTeams] is the fresh cached list of the
    club or the list the teams endpoint returned (which is then cached under
    the club id with the current time), or an error is shown. *)
Theorem X18_fetchTeams_outcome (token : string) (club : Clubs.Club) (u : UI) (w : World) :
  let k := KNum (Clubs.id club) in
  let '(r, (u', w')) := fetchTeams token club (u, w) in
  r = Ok tt
  /\ u' = mkUI (loading_clubs u) false (loading_usage u) (error u') (clubQuery u) (seasonId u)
            (clubs u) (selectedClub u) (allTeams u') (selectedTeamIds u) (competitionId u)
            (playerUsage u)
  /\ ((error u' = None
       /\ ((exists it, store_get (teams (db w)) k = Some it
                       /\ isCacheValid (now w) (Some it) = true /\ allTeams u' = data it)
           \/ (exists status,
                 net_teams w (Clubs.id club) = Response true status (inr (allTeams u'))
                 /\ store_get (teams (db w')) k = Some (mkItem k (allTeams u') (now w)))))
      \/ (exists e, error u' = Some e)).
Proof.
  intros k.
  unfold fetchTeams, onActivity, modify_world, setLoadingTeams, setError, modify_ui, attempt,
    getFromDB, dateNow, apiFetch, fetch, json, setToDB, throw, setAllTeams.
  unfold mbind, M_bind, mret, M_ret. cbn.
  destruct (db_read_error w); cbn; [teams_err |].
  change (find _ (teams (db w))) with (store_get (teams (db w)) k).
  destruct (store_get (teams (db w)) k) as [it |] eqn:Eg; cbn.
  - destruct (Z.ltb (now w - timestamp it) CACHE_DURATION_MS) eqn:Ev; cbn.
    { split; [reflexivity |]. split; [reflexivity |]. left. split; [reflexivity |].
      left. exists it. split; [reflexivity |]. split; [exact Ev | reflexivity]. }
    teams_fetch_case.
  - teams_fetch_case.
Qed.

(** X19: [handleFetchPlayerUsage] with a valid selection always completes
    and ends with [loadingUsage] false, changing no state but
    [playerUsage], [error] and the loading flag; it ends either with no
    error and a usage table, or with an error and no usage table. *)
Theorem X19_handleFetchPlayerUsage_finally (token : string) (u : UI) (w : World)
  (sel : list Z) (c : Z) :
  validate u = Some (sel, c) ->
  let '(r, (u', w')) := handleFetchPlayerUsage token (u, w) in
  r = Ok tt
  /\ u' = mkUI (loading_clubs u) (loading_teams u) false (error u') (clubQuery u) (seasonId u)
            (clubs u) (selectedClub u) (allTeams u) (selectedTeamIds u) (competitionId u)
            (playerUsage u')
  /\ ((error u' = None /\ exists pu, playerUsage u' = Some pu)
      \/ (exists e, error u' = Some e /\ playerUsage u' = None)).
Proof.
  intros Hv. rewrite (EffectFacts.handle_valid token u w sel c Hv).
  set (u1 := mkUI (loading_clubs u) (loading_teams u) true None (clubQuery u) (seasonId u)
               (clubs u) (selectedClub u) (allTeams u) (selectedTeamIds u) (competitionId u) None).
  assert (Hs : snd (usage_start (u, w)) = (u1, log OpActivity w)) by reflexivity.
  rewrite Hs. pose proof (HandlerFacts.analysis_body_ui token sel c u1 (log OpActivity w)) as Ha.
  destruct (analysis_body token sel c (u1, log OpActivity w)) as [[x | e] [u2 w2]].
  - destruct Ha as [pu ->]. cbn. split; [reflexivity |]. split; [reflexivity |].
    left. split; [reflexivity | exists pu; reflexivity].
  - subst u2. cbn. split; [reflexivity |]. split; [reflexivity |].
    right. exists e. split; reflexivity.
Qed.

(** X20: a Stage C or Stage D task that finds no fresh cache entry and
    gets a parsed [ok] response returns its data; the same task run again
    less than [CACHE_DURATION_MS] later returns the same data from the
    cache, with a single [getFromDB] and no network request. *)
Theorem X20_cacheOrFetch_round_trip {T} (st : Store T) (k : Key) (url token : string)
  (endpoint : World -> FetchOutcome T) (msg : string) (u : UI) (w : World)
  (status : Z) (d : T) (delta : Z) :
  (forall l db, store_of st (with_store st l db) = l) ->
  (forall o w', endpoint (log o w') = endpoint w') ->
  db_read_error w = None -> db_write_error w = None ->
  fresh_data (now w) (store_get (store_of st (db w)) k) = None ->
  endpoint w = Response true status (inr d) ->
  delta < CACHE_DURATION_MS ->
  let '(r1, (u1, w1)) := cacheOrFetch st k url token endpoint msg (u, w) in
  r1 = Ok d
  /\ let '(r2, (u2, w2)) := cacheOrFetch st k url token endpoint msg (u1, advance delta w1) in
     r2 = Ok d /\ u2 = u1 /\ trace w2 = (trace w1 ++ [OpGet (store_name st) k])%list.
Proof.
  intros Hlens Hend Hr Hw Hmiss Hok Hd.
  unfold cacheOrFetch at 1, getFromDB, dateNow, apiFetch, fetch, json, setToDB, throw.
  unfold mbind, M_bind, mret, M_ret. cbn. rewrite Hr. cbn.
  rewrite Hmiss, Hend, Hok. cbn. rewrite Hw. cbn. split; [reflexivity |].
  unfold cacheOrFetch, getFromDB, dateNow.
  unfold mbind, M_bind, mret, M_ret. cbn. rewrite Hr. cbn.
  rewrite Hlens, StoreFacts.store_get_put_same. cbn. unfold isCacheValid. cbn.
  replace (now w + delta - now w) with delta by lia.
  apply Z.ltb_lt in Hd. rewrite Hd. cbn. repeat split.
Qed.

Lemma X16_searchForClubs_empty_query_witness :
  clubQuery ui_no_selection = ""
  /\ searchForClubs (ui_no_selection, world_with matches_none)
     = (Ok tt, (ui_no_selection, world_with matches_none)).
Proof.
  assert (H : clubQuery ui_no_selection = "") by reflexivity.
  split; [exact H | exact (X16_searchForClubs_empty_query _ _ H)].
Defined.

Lemma X17_searchForClubs_outcome_witness :
  clubQuery ui_query <> ""
  /\ fst (searchForClubs (ui_query, world_with matches_none)) = Ok tt.
Proof.
  assert (H : clubQuery ui_query <> "") by discriminate.
  split; [exact H |].
  pose proof (X17_searchForClubs_outcome ui_query (world_with matches_none) H) as X.
  destruct (searchForClubs (ui_query, world_with matches_none)) as [r [u' w']].
  exact (proj1 X).
Defined.

Lemma X19_handleFetchPlayerUsage_finally_witness :
  validate ui_two_teams = Some ([1; 2], 7)
  /\ fst (handleFetchPlayerUsage "tok" (ui_two_teams, world_with matches_team1)) = Ok tt.
Proof.
  assert (H : validate ui_two_teams = Some ([1; 2], 7)) by reflexivity.
  split; [exact H |].
  pose proof (X19_handleFetchPlayerUsage_finally "tok" ui_two_teams (world_with matches_team1)
                [1; 2] 7 H) as X.
  destruct (handleFetchPlayerUsage "tok" (ui_two_teams, world_with matches_team1)) as [r [u' w']].
  exact (proj1 X).
Defined.

Lemma X20_cacheOrFetch_round_trip_witness :
  fresh_data (now (world_with matches_team1))
    (store_get (match_lists (db (world_with matches_team1))) (KStr "1-7")) = None
  /\ net_matches (world_with matches_team1) 1 7 = Response true 200 (inr [mkStub 100; mkStub 101])
  /\ fst (cacheOrFetch matchListsStore (KStr "1-7") "/api/Matches?teamId=1&competitionId=7" "tok"
            (fun w => net_matches w 1 7) "Failed fetching matches for team 1"
            (ui_two_teams, world_with matches_team1))
     = Ok [mkStub 100; mkStub 101].
Proof.
  assert (H1 : fresh_data (now (world_with matches_team1))
                 (store_get (match_lists (db (world_with matches_team1))) (KStr "1-7")) = None)
    by reflexivity.
  assert (H2 : net_matches (world_with matches_team1) 1 7
               = Response true 200 (inr [mkStub 100; mkStub 101])) by reflexivity.
  split; [exact H1 |]. split; [exact H2 |].
  pose proof (X20_cacheOrFetch_round_trip matchListsStore (KStr "1-7")
                "/api/Matches?teamId=1&competitionId=7" "tok" (fun w => net_matches w 1 7)
                "Failed fetching matches for team 1" ui_two_teams (world_with matches_team1)
                200 [mkStub 100; mkStub 101] 1000
                (fun l d => eq_refl) (fun o w' => eq_refl) eq_refl eq_refl H1 H2 eq_refl) as X.
  destruct (cacheOrFetch matchListsStore (KStr "1-7") "/api/Matches?teamId=1&competitionId=7" "tok"
              (fun w => net_matches w 1 7) "Failed fetching matches for team 1"
              (ui_two_teams, world_with matches_team1)) as [r [u' w']].
  exact (proj1 X).
Defined.

End Extras.
